(** * koishi-plugin-pixiv-parse: credential manager, gallery client,
      output renderer and subscription tracker of [src/index.ts]

    The TypeScript code is embedded shallowly.  Asynchronous methods become
    computations in a state-and-exception monad: the state carries what the
    code mutates (the access token, the last-seen table) together with a log
    of the calls made to the outside world, and the answers of the outside
    world (HTTP endpoints, image codec, message sink) are read from a
    [World] value. *)

From Stdlib Require Import ZArith NArith List Bool Ascii String Lia.
From Stdlib.Strings Require Import Byte.
From stdpp Require Import base option list gmap strings pretty.
Import ListNotations.

Set Warnings "-register-all".
Set Default Proof Using "Type".

Local Open Scope string_scope.
Local Open Scope Z_scope.
Local Open Scope list_scope.

(* ===================================================================== *)
(** ** A state-and-exception monad for [async] functions                 *)
(* ===================================================================== *)

(** Outcome of an awaited computation: a value, or a thrown error. *)
Inductive Res (E A : Type) : Type :=
| Val (a : A)
| Exc (e : E).
Arguments Val {E A} a.
Arguments Exc {E A} e.

Definition M (S E A : Type) : Type := S -> Res E A * S.

Definition ret {S E A} (a : A) : M S E A := fun s => (Val a, s).

Definition bind {S E A B} (m : M S E A) (k : A -> M S E B) : M S E B :=
  fun s => match m s with
           | (Val a, s') => k a s'
           | (Exc e, s') => (Exc e, s')
           end.

Definition throw {S E A} (e : E) : M S E A := fun s => (Exc e, s).

(** [try { body } catch (error) { handler }]: the state changes made by the
    body before it threw are kept. *)
Definition try_catch {S E A} (body : M S E A) (handler : E -> M S E A) : M S E A :=
  fun s => match body s with
           | (Val a, s') => (Val a, s')
           | (Exc e, s') => handler e s'
           end.

Definition gets {S E A} (f : S -> A) : M S E A := fun s => (Val (f s), s).
Definition modify {S E} (f : S -> S) : M S E unit := fun s => (Val tt, f s).
Definition lift_res {S E A} (r : Res E A) : M S E A := fun s => (r, s).

Declare Scope js_scope.
Delimit Scope js_scope with js.
Notation "x <- c1 ;; c2" := (bind c1 (fun x => c2))
  (at level 100, c1 at next level, right associativity) : js_scope.
Notation "c1 ;;; c2" := (bind c1 (fun _ => c2))
  (at level 100, right associativity) : js_scope.
Local Open Scope js_scope.

(* ===================================================================== *)
(** ** JavaScript values, as far as the service inspects them            *)
(* ===================================================================== *)

Definition Buffer : Type := list byte.

(** A parsed JSON body.  Objects keep their fields as an association list;
    a property read takes the first binding of the name. *)
Inductive JsVal : Type :=
| JUndefined
| JNull
| JBool (b : bool)
| JNum (n : Z)
| JStr (s : string)
| JArr (items : list JsVal)
| JObj (fields : list (string * JsVal)).

(** What [error.response?.status], [error.response?.data?.error?.message]
    and [error.message] give for an error thrown by [ctx.http]. *)
Record HttpError : Type := mkHttpError {
  response_status : option Z;
  response_error_message : option string;
  error_message : string
}.

Inductive JsError : Type :=
| HttpFailure (e : HttpError)   (* thrown by ctx.http.get / ctx.http.post *)
| TypeError                     (* property read on null or undefined, call of a non-function *)
| NoTokenError                  (* new Error('无法获取或刷新 Access Token。') *)
| RenderError                   (* thrown by sharp while a PDF is built *)
| DatabaseError                 (* thrown by ctx.database *)
| DeliveryError.                (* thrown by session.send or bot.sendMessage *)

(** ToBoolean. *)
Definition truthy (v : JsVal) : bool :=
  match v with
  | JUndefined | JNull => false
  | JBool b => b
  | JNum n => negb (n =? 0)
  | JStr s => negb (String.eqb s "")
  | JArr _ | JObj _ => true
  end.

Fixpoint assoc (k : string) (fields : list (string * JsVal)) : JsVal :=
  match fields with
  | [] => JUndefined
  | (k', v) :: rest => if String.eqb k k' then v else assoc k rest
  end.

(** [v.k]: throws on null and undefined; gives undefined where the property
    is absent (none of the names read here is a built-in property). *)
Definition get_prop (v : JsVal) (k : string) : Res JsError JsVal :=
  match v with
  | JUndefined | JNull => Exc TypeError
  | JObj fields => Val (assoc k fields)
  | _ => Val JUndefined
  end.

(** *** The test [/invalid_grant|invalid_token/i.test(errorMsg)] *)

Definition lower (c : ascii) : ascii :=
  let n := N_of_ascii c in
  if ((65 <=? n) && (n <=? 90))%N then ascii_of_N (n + 32) else c.

Fixpoint starts_with_ci (pat s : string) : bool :=
  match pat, s with
  | EmptyString, _ => true
  | String p pat', String c s' => Ascii.eqb (lower p) (lower c) && starts_with_ci pat' s'
  | String _ _, EmptyString => false
  end.

Fixpoint contains_ci (pat s : string) : bool :=
  starts_with_ci pat s ||
  match s with
  | EmptyString => false
  | String _ s' => contains_ci pat s'
  end.

Definition invalid_token_re (errorMsg : string) : bool :=
  contains_ci "invalid_grant" errorMsg || contains_ci "invalid_token" errorMsg.

(* ===================================================================== *)
(** ** PixivService: credential manager and gallery client               *)
(* ===================================================================== *)

Module PixivService.

(** The part of [Config] the service reads. *)
Record Config : Type := mkConfig {
  refreshToken : option string;
  clientId : string;
  clientSecret : string
}.

(** The calls the service makes through [ctx.http], in the order made. *)
Inductive HttpCall : Type :=
| PostToken (client_id client_secret refresh_token : string)
| Get (url : string) (params : list (string * string)) (bearer : JsVal)
| GetBinary (url : string).

(** The answer of the network to the [n]-th call of a run: a parsed body or
    a thrown error; binary downloads answer with bytes. *)
Record World : Type := mkWorld {
  http_json : nat -> Res HttpError JsVal;
  http_binary : nat -> Res HttpError Buffer
}.

Record State : Type := mkState {
  accessToken : JsVal;            (* private accessToken: string | null = null *)
  calls : list HttpCall
}.

Definition init : State := {| accessToken := JNull; calls := [] |}.

Definition Svc (A : Type) : Type := M State JsError A.

Definition set_token (v : JsVal) : Svc unit :=
  modify (fun s => {| accessToken := v; calls := calls s |}).

Definition of_http {A} (r : Res HttpError A) : Res JsError A :=
  match r with
  | Val a => Val a
  | Exc e => Exc (HttpFailure e)
  end.

Definition http_call (w : World) (c : HttpCall) : Svc JsVal :=
  fun s => (of_http (http_json w (length (calls s))),
            {| accessToken := accessToken s; calls := calls s ++ [c] |}).

Definition http_call_binary (w : World) (c : HttpCall) : Svc Buffer :=
  fun s => (of_http (http_binary w (length (calls s))),
            {| accessToken := accessToken s; calls := calls s ++ [c] |}).

Definition configured (cfg : Config) : bool :=
  match refreshToken cfg with
  | Some t => negb (String.eqb t "")
  | None => false
  end.

Definition _refreshAccessToken (cfg : Config) (w : World) : Svc bool :=
  match refreshToken cfg with
  | None => ret false
  | Some t =>
    if String.eqb t "" then ret false
    else
      try_catch
        (response <- http_call w (PostToken (clientId cfg) (clientSecret cfg) t) ;;
         tok <- lift_res (get_prop response "access_token") ;;
         if truthy tok then (set_token tok ;;; ret true) else ret false)
        (fun error => set_token JNull ;;; ret false)
  end.

Definition is_auth_failure (error : JsError) : bool :=
  match error with
  | HttpFailure e =>
    let errorMsg := default "" (response_error_message e) in
    match response_status e with
    | Some st => (st =? 400) && invalid_token_re errorMsg
    | None => false
    end
  | _ => false
  end.

Definition makeRequest (w : World) (url : string) (params : list (string * string)) : Svc JsVal :=
  tok <- gets accessToken ;;
  http_call w (Get url params tok).

(** The first statement of [_request]: without a token, refresh or give up. *)
Definition ensure_token (cfg : Config) (w : World) : Svc unit :=
  tok <- gets accessToken ;;
  if negb (truthy tok)
  then (ok <- _refreshAccessToken cfg w ;;
        if negb ok then throw NoTokenError else ret tt)
  else ret tt.

Definition _request (cfg : Config) (w : World) (url : string)
    (params : list (string * string)) : Svc JsVal :=
  ensure_token cfg w ;;;
  try_catch (makeRequest w url params)
    (fun error =>
       if is_auth_failure error then
         (ok <- _refreshAccessToken cfg w ;;
          if ok then makeRequest w url params else throw error)
       else throw error).

Definition getArtworkDetail (cfg : Config) (w : World) (pid : string) : Svc JsVal :=
  try_catch
    (response <- _request cfg w "https://app-api.pixiv.net/v1/illust/detail"
                   [("illust_id", pid); ("filter", "for_ios")] ;;
     lift_res (get_prop response "illust"))
    (fun error => ret JNull).

(** [Buffer.from(arrayBuffer)] of the bytes received, or null. *)
Definition downloadImage (w : World) (url : string) : Svc (option Buffer) :=
  try_catch
    (arrayBuffer <- http_call_binary w (GetBinary url) ;;
     ret (Some arrayBuffer))
    (fun error => ret None).

Definition getUserDetail (cfg : Config) (w : World) (uid : string) : Svc JsVal :=
  try_catch
    (response <- _request cfg w "https://app-api.pixiv.net/v1/user/detail"
                   [("user_id", uid)] ;;
     ret response)
    (fun error => ret JNull).

Definition getUserIllusts (cfg : Config) (w : World) (uid : string) : Svc JsVal :=
  try_catch
    (response <- _request cfg w "https://app-api.pixiv.net/v1/user/illusts"
                   [("user_id", uid); ("filter", "for_ios")] ;;
     lift_res (get_prop response "illusts"))
    (fun error => ret JNull).

(** The states a service created by [new PixivService(ctx, config)] can be
    in: the initial one, and those left by its public methods. *)
Inductive reachable (cfg : Config) : State -> Prop :=
| reach_init : reachable cfg init
| reach_getArtworkDetail w pid s :
    reachable cfg s -> reachable cfg (snd (getArtworkDetail cfg w pid s))
| reach_downloadImage w url s :
    reachable cfg s -> reachable cfg (snd (downloadImage w url s))
| reach_getUserDetail w uid s :
    reachable cfg s -> reachable cfg (snd (getUserDetail cfg w uid s))
| reach_getUserIllusts w uid s :
    reachable cfg s -> reachable cfg (snd (getUserIllusts cfg w uid s)).

(** A held token implies a configured refresh credential. *)
Definition token_justified (cfg : Config) (s : State) : Prop :=
  truthy (accessToken s) = true -> configured cfg = true.

(** What a token exchange yields: the truthy [access_token] of the
    response, if the call returned and the body has one. *)
Definition exchanged (answer : Res HttpError JsVal) : option JsVal :=
  match answer with
  | Val response =>
    match get_prop response "access_token" with
    | Val tok => if truthy tok then Some tok else None
    | Exc _ => None
    end
  | Exc _ => None
  end.

End PixivService.

(* ===================================================================== *)
(** ** Data of the plugin                                                *)
(* ===================================================================== *)

Inductive R18Action : Type := ActBlock | ActWarn | ActSend.
Inductive PdfSendMode : Type := ModeBuffer | ModeFile.
Inductive Source : Type := Command | Middleware.

Record Subscription : Type := mkSubscription {
  uid : string;
  sub_name : string;
  channelIds : list string
}.

Record Config : Type := mkConfig {
  sendTags : bool;
  sendAuthor : bool;
  sendLinkWithCommand : bool;
  r18Action : R18Action;
  forwardThreshold : Z;
  pdfThreshold : Z;
  autoPdfForR18 : bool;
  pdfPassword : option string;
  pdfSendMode : PdfSendMode;
  enableCompression : bool;
  compressionQuality : Z;
  enableSubscription : bool;
  subscriptions : list Subscription;
  pushBotPlatform : option string;
  pushBotId : option string
}.

Record User : Type := mkUser { user_name : string }.
Record Tag : Type := mkTag { tag_name : string }.

(** An illust object of the app API.  [illust_id] is the numeric [id];
    [meta_pages] lists [p.image_urls.original] of each page (empty when the
    field is absent or has no entries); [meta_single_page] is
    [meta_single_page.original_image_url]. *)
Record Illust : Type := mkIllust {
  illust_id : N;
  title : string;
  user : User;
  tags : list Tag;
  x_restrict : Z;
  meta_pages : list string;
  meta_single_page : string
}.

Record Session : Type := mkSession {
  messageId : string;
  platform : string;
  channelId : string
}.

Record Bot : Type := mkBot {
  bot_platform : string;
  selfId : string;
  status : Z
}.

(** A page of the document a [Recipe] builds: [createPage(width, height)]
    with the image file placed at the origin. *)
Record Page : Type := mkPage {
  page_width : Z;
  page_height : Z;
  page_image : Buffer
}.

Record Pdf : Type := mkPdf {
  pages : list Page;
  userPassword : option string;
  ownerPassword : option string
}.

(** Message elements built with [h]. *)
Inductive Element : Type :=
| EP (text : string)                                   (* h('p', text) *)
| EImage (data : Buffer) (mime : string)               (* h.image(buffer, mime) *)
| EFile (mode : PdfSendMode) (doc : Pdf) (file_title : string)
                                                       (* h.file(url or buffer, { title }) *)
| EFigure (children : list Element).                   (* h('figure', {}, children) *)

(** What [handlePixivRequest] resolves to: [h[] | h | string | null].  The
    strings are all of the form quote-element-then-text; [OUnknownError]
    is the one whose text ends in [error.message]. *)
Inductive Output : Type :=
| ONull
| OQuoted (quoteId : string) (text : string)
| OUnknownError (quoteId : string) (error : JsError)
| OElements (l : list Element)
| OElement (e : Element).

(** The argument of [bot.sendMessage]: an array is joined with newlines,
    anything else is passed as it is. *)
Inductive Payload : Type :=
| PJoined (l : list Element)
| PAsIs (o : Output).

Definition payload (messageContent : Output) : Payload :=
  match messageContent with
  | OElements l => PJoined l
  | o => PAsIs o
  end.

(** Calls to the collaborators, in the order made.  [SendMessage] and the
    database writes record the subscription being served and whether the
    call returned or threw. *)
Inductive Event : Type :=
| SessionSend (id : string)
| DeleteMessage
| CallGetArtworkDetail (id : string)
| CallDownloadImage (url : string) (result : option Buffer)
| CallGetUserIllusts (author_id : string)
| DbGet (author_id : string)
| DbUpsert (author_id last_artwork_id : string) (ok : bool)
| DbCreate (author_id last_artwork_id : string) (ok : bool)
| SendMessage (author_id channel : string) (content : Payload) (ok : bool).

(** The answers of the collaborators.  An answer depends only on the
    arguments of the call: the outside world stays as it is during the runs
    considered.  The gallery accessors are those of [PixivService] seen
    from their callers: a value or nothing, never a thrown error.  [sharp_toFile quality buffer] is the content of the
    [.jpg] file that [sharp(buffer)], with [.jpeg({ quality })] applied when
    a quality is given, writes with [toFile]; [sharp_metadata] gives width
    and height of an image file; both give [None] when sharp throws. *)
Record World : Type := mkWorld {
  artwork_detail : string -> option Illust;
  user_illusts : string -> option (list Illust);
  download_image : string -> option Buffer;
  sharp_toFile : option Z -> Buffer -> option Buffer;
  sharp_metadata : Buffer -> option (Z * Z);
  bots : list Bot;
  session_send_ok : bool;
  sendMessage_ok : string -> Payload -> bool;
  database_get_ok : string -> bool;
  database_write_ok : string -> bool
}.

(** The table [pixiv_last_artworks] (primary key [author_id]), the log of
    calls, and the counter [updatesFound] of a running check. *)
Record PState : Type := mkPState {
  db : gmap string string;
  trace : list Event;
  updatesFound : nat
}.

Definition Plug (A : Type) : Type := M PState JsError A.

Definition emit (e : Event) : Plug unit :=
  modify (fun s => {| db := db s; trace := trace s ++ [e]; updatesFound := updatesFound s |}).

Definition set_db (d : gmap string string) : Plug unit :=
  modify (fun s => {| db := d; trace := trace s; updatesFound := updatesFound s |}).

Definition set_updatesFound (n : nat) : Plug unit :=
  modify (fun s => {| db := db s; trace := trace s; updatesFound := n |}).

Fixpoint for_each {S E A} (l : list A) (body : A -> M S E unit) : M S E unit :=
  match l with
  | [] => ret tt
  | x :: rest => body x ;;; for_each rest body
  end.

Fixpoint map_all {S E A B} (l : list A) (f : A -> M S E B) : M S E (list B) :=
  match l with
  | [] => ret []
  | x :: rest => y <- f x ;; ys <- map_all rest f ;; ret (y :: ys)
  end.

(** [try { body } finally { cleanup }], for a cleanup that does not throw. *)
Definition finally {S E A} (body : M S E A) (cleanup : M S E unit) : M S E A :=
  fun s => match body s with
           | (r, s') => (r, snd (cleanup s'))
           end.

(* ===================================================================== *)
(** ** Output renderer                                                   *)
(* ===================================================================== *)

Definition nl : string := String (ascii_of_N 10) EmptyString.

(** The characters the title regex replaces by an underscore: backslash,
    slash, colon, star, question mark, double quote, angle brackets and
    bar, by code. *)
Definition unsafe_char (c : ascii) : bool :=
  existsb (N.eqb (N_of_ascii c)) [92; 47; 58; 42; 63; 34; 60; 62; 124]%N.

Fixpoint replace_unsafe (s : string) : string :=
  match s with
  | EmptyString => EmptyString
  | String c s' => String (if unsafe_char c then "_"%char else c) (replace_unsafe s')
  end.

(** [(illust.title || illust.id).replace(...)]: with an empty title the
    receiver is the numeric id, which has no [replace] method. *)
Definition safeTitle (illust : Illust) : Res JsError string :=
  if String.eqb (title illust) "" then Exc TypeError
  else Val (replace_unsafe (title illust)).

(** The options of the sharp pipeline: [.jpeg({ quality })] is applied
    only with [enableCompression]. *)
Definition jpeg_option (config : Config) : option Z :=
  if enableCompression config then Some (compressionQuality config) else None.

(** The loop of [createPdfFile]: each buffer is written through sharp to
    its temporary [.jpg] file, the file's metadata give the page size, and
    the file is placed on the new page. *)
Fixpoint add_pages (config : Config) (w : World) (buffers : list Buffer)
    (recipe : list Page) : Res JsError (list Page) :=
  match buffers with
  | [] => Val recipe
  | buffer :: rest =>
    match sharp_toFile w (jpeg_option config) buffer with
    | None => Exc RenderError
    | Some tempImage =>
      match sharp_metadata w tempImage with
      | None => Exc RenderError
      | Some (width, height) =>
        add_pages config w rest
          (recipe ++ [{| page_width := width; page_height := height;
                         page_image := tempImage |}])
      end
    end
  end.

Definition truthy_opt (o : option string) : bool :=
  match o with
  | Some s => negb (String.eqb s "")
  | None => false
  end.

Definition createPdfFile (config : Config) (w : World) (illust : Illust)
    (buffers : list Buffer) : Res JsError Pdf :=
  match safeTitle illust with
  | Exc e => Exc e
  | Val _ =>
    match add_pages config w buffers [] with
    | Exc e => Exc e
    | Val ps =>
      Val (if truthy_opt (pdfPassword config)
           then {| pages := ps; userPassword := pdfPassword config;
                   ownerPassword := pdfPassword config |}
           else {| pages := ps; userPassword := None; ownerPassword := None |})
    end
  end.

Definition isR18 (illust : Illust) : bool := x_restrict illust >? 0.

Definition imageUrls (illust : Illust) : list string :=
  match meta_pages illust with
  | [] => [meta_single_page illust]
  | _ :: _ => meta_pages illust
  end.

Definition textInfo (config : Config) (illust : Illust) (id : string)
    (source : Source) (isSubscription : bool) : string :=
  (if isSubscription then "[" +:+ user_name (user illust) +:+ " 的作品更新]" +:+ nl else "")
  +:+ "[标题] " +:+ title illust
  +:+ (if sendAuthor config then nl +:+ "[作者] " +:+ user_name (user illust) else "")
  +:+ (if sendTags config && negb (bool_decide (tags illust = []))
       then nl +:+ "[标签] " +:+ String.concat ", " (map tag_name (tags illust)) else "")
  +:+ (if isR18 illust then nl +:+ "[警告] 本作品为 R-18/R-18G 内容" else "")
  +:+ (match source with
       | Command => if sendLinkWithCommand config
                    then nl +:+ "[源链接] https://www.pixiv.net/artworks/" +:+ id else ""
       | Middleware => ""
       end).

Definition shouldCreatePdf (config : Config) (illust : Illust) (imageCount : Z) : bool :=
  (autoPdfForR18 config && isR18 illust)
  || ((pdfThreshold config >? 0) && (imageCount >=? pdfThreshold config)).

(** [['qq', 'onebot'].includes(platform)] *)
Definition forward_capable (platform : option string) : bool :=
  match platform with
  | Some p => String.eqb p "qq" || String.eqb p "onebot"
  | None => false
  end.

Definition shouldForward (config : Config) (imageCount : Z) (platform : option string) : bool :=
  (forwardThreshold config >? 0) && (imageCount >=? forwardThreshold config)
  && forward_capable platform.

(** [h('quote', { id: session.messageId }) + text] *)
Definition quote (session : option Session) (text : string) : Plug Output :=
  match session with
  | Some s => ret (OQuoted (messageId s) text)
  | None => throw TypeError
  end.

Definition session_send (w : World) (id : string) : Plug unit :=
  emit (SessionSend id) ;;;
  if session_send_ok w then ret tt else throw DeliveryError.

Definition call_getArtworkDetail (w : World) (id : string) : Plug (option Illust) :=
  emit (CallGetArtworkDetail id) ;;; ret (artwork_detail w id).

Definition call_downloadImage (w : World) (url : string) : Plug (option Buffer) :=
  emit (CallDownloadImage url (download_image w url)) ;;; ret (download_image w url).

Definition call_getUserIllusts (w : World) (author : string) : Plug (option (list Illust)) :=
  emit (CallGetUserIllusts author) ;;; ret (user_illusts w author).

(** The end of the [try] block of [handlePixivRequest], from [imageCount]
    on: the payload for the buffers that were downloaded.  The PDF is
    carried by the file element with the send mode (a [file://] path in
    file mode, the bytes read back in buffer mode); [target] is the
    platform the forward decision looks at. *)
Definition compose (config : Config) (w : World) (session : option Session)
    (id : string) (source : Source) (isSubscription : bool) (illust : Illust)
    (imageBuffers : list Buffer) : Res JsError Output :=
  let imageCount := Z.of_nat (length imageBuffers) in
  let text := textInfo config illust id source isSubscription in
  match safeTitle illust with
  | Exc e => Exc e
  | Val safe =>
    if shouldCreatePdf config illust imageCount then
      match createPdfFile config w illust imageBuffers with
      | Exc e => Exc e
      | Val doc =>
        Val (OElements [EP text; EFile (pdfSendMode config) doc (safe +:+ ".pdf")])
      end
    else
      let allContentNodes :=
        EP text :: map (fun buffer => EImage buffer "image/png") imageBuffers in
      let target := if isSubscription then pushBotPlatform config
                    else platform <$> session in
      if shouldForward config imageCount target
      then Val (OElement (EFigure allContentNodes))
      else Val (OElements allContentNodes)
  end.

(** The [try] block of [handlePixivRequest]. *)
Definition render (config : Config) (w : World) (session : option Session)
    (id : string) (source : Source) (isSubscription : bool) : Plug Output :=
  found <- call_getArtworkDetail w id ;;
  match found with
  | None =>
    if isSubscription then ret ONull else quote session "找不到该 ID 对应的插画作品。"
  | Some illust =>
    match isR18 illust, r18Action config, isSubscription with
    | true, ActBlock, true => ret ONull
    | true, ActBlock, false => quote session "根据配置，已屏蔽 R-18 作品。"
    | true, ActWarn, false =>
      quote session ("[警告] 该作品为 R-18/R-18G 内容！" +:+ nl +:+ "标题: " +:+ title illust
                     +:+ nl +:+ "作者: " +:+ user_name (user illust))
    | _, _, _ =>
      results <- map_all (imageUrls illust) (call_downloadImage w) ;;
      let imageBuffers := omap (fun result => result) results in
      match imageBuffers with
      | [] =>
        if isSubscription then ret ONull
        else quote session "所有图片都下载失败了，无法发送。"
      | _ :: _ =>
        lift_res (compose config w session id source isSubscription illust imageBuffers)
      end
    end
  end.

Definition handlePixivRequest (config : Config) (w : World) (session : option Session)
    (id : string) (source : Source) (isSubscription : bool) : Plug Output :=
  statusMessage <-
    (if isSubscription then ret false
     else match session with
          | Some _ => session_send w id ;;; ret true
          | None => throw TypeError
          end) ;;
  finally
    (try_catch (render config w session id source isSubscription)
       (fun error =>
          if isSubscription then ret ONull
          else match session with
               | Some s => ret (OUnknownError (messageId s) error)
               | None => throw TypeError
               end))
    (if statusMessage : bool then emit DeleteMessage else ret tt).

(* ===================================================================== *)
(** ** Subscription tracker                                              *)
(* ===================================================================== *)

(** [ctx.database.get(table, { author_id })] followed by
    [record[0]?.last_artwork_id]. *)
Definition database_get (w : World) (author : string) : Plug (option string) :=
  emit (DbGet author) ;;;
  if database_get_ok w author then gets (fun s => db s !! author)
  else throw DatabaseError.

Definition database_upsert (w : World) (author last : string) : Plug unit :=
  emit (DbUpsert author last (database_write_ok w author)) ;;;
  if database_write_ok w author
  then (d <- gets db ;; set_db (<[author := last]> d))
  else throw DatabaseError.

(** [ctx.database.create]: a second row with the same primary key is
    refused. *)
Definition database_create (w : World) (author last : string) : Plug unit :=
  d <- gets db ;;
  let ok := database_write_ok w author && bool_decide (d !! author = None) in
  emit (DbCreate author last ok) ;;;
  if ok then set_db (<[author := last]> d) else throw DatabaseError.

Definition bot_sendMessage (w : World) (author channel : string) (content : Payload) : Plug unit :=
  emit (SendMessage author channel content (sendMessage_ok w channel content)) ;;;
  if sendMessage_ok w channel content then ret tt else throw DeliveryError.

Definition find_bot (config : Config) (w : World) : option Bot :=
  find (fun b => bool_decide (Some (bot_platform b) = pushBotPlatform config)
                 && bool_decide (Some (selfId b) = pushBotId config)
                 && (status b =? 1)) (bots w).

Definition falsy_output (o : Output) : bool :=
  match o with
  | ONull => true
  | OQuoted _ _ | OUnknownError _ _ | OElements _ | OElement _ => false
  end.

(** [!lastIdInDb || latestId !== lastIdInDb] *)
Definition isNew (latestId : string) (lastIdInDb : option string) : bool :=
  negb (truthy_opt lastIdInDb) || negb (bool_decide (Some latestId = lastIdInDb)).

(** The body of the loop of [checkAndPushUpdates] for one subscription.
    The inner computation answers whether the iteration ended with
    [continue]. *)
Definition check_subscription (config : Config) (w : World) (isManualTrigger : bool)
    (sub : Subscription) : Plug unit :=
  if String.eqb (uid sub) "" || bool_decide (channelIds sub = []) then ret tt
  else
    try_catch
      (illusts <- call_getUserIllusts w (uid sub) ;;
       match illusts with
       | None | Some [] => ret tt
       | Some (latestIllust :: _) =>
         let latestId := pretty (illust_id latestIllust) in
         lastIdInDb <- database_get w (uid sub) ;;
         let new := isNew latestId lastIdInDb in
         let shouldPush := new || (isManualTrigger && negb (String.eqb latestId "")) in
         continue <-
           (if shouldPush then
              n <- gets updatesFound ;;
              set_updatesFound (S n) ;;;
              messageContent <- handlePixivRequest config w None latestId Middleware true ;;
              if falsy_output messageContent then ret true
              else
                for_each (channelIds sub)
                  (fun channel =>
                     try_catch (bot_sendMessage w (uid sub) channel (payload messageContent))
                       (fun e => ret tt)) ;;;
                ret false
            else ret false) ;;
         if continue : bool then ret tt
         else if new then database_upsert w (uid sub) latestId
         else ret tt
       end)
      (fun error => ret tt).

(** The value [checkAndPushUpdates] resolves to: [undefined], the notice
    that the configured bot is missing or offline, or the summary with the
    number of subscriptions pushed. *)
Inductive CheckResult : Type :=
| RUndefined
| RBotOffline
| RSummary (updates : nat).

Definition checkAndPushUpdates (config : Config) (w : World) (isManualTrigger : bool)
    : Plug CheckResult :=
  if negb (enableSubscription config) then ret RUndefined
  else
    match find_bot config w with
    | None => ret (if isManualTrigger then RBotOffline else RUndefined)
    | Some bot =>
      set_updatesFound 0 ;;;
      for_each (subscriptions config) (check_subscription config w isManualTrigger) ;;;
      n <- gets updatesFound ;;
      ret (if isManualTrigger then RSummary n else RUndefined)
    end.

(** The handler of the [ready] event, registered with [enableSubscription]. *)
Definition ready (config : Config) (w : World) : Plug unit :=
  for_each (subscriptions config)
    (fun sub =>
       record <- database_get w (uid sub) ;;
       match record with
       | Some _ => ret tt
       | None =>
         illusts <- call_getUserIllusts w (uid sub) ;;
         match illusts with
         | Some (first :: _) => database_create w (uid sub) (pretty (illust_id first))
         | _ => ret tt
         end
       end).

(* ===================================================================== *)
(** ** Reading the log of a run                                          *)
(* ===================================================================== *)

Definition blank : PState := {| db := ∅; trace := []; updatesFound := 0 |}.

Definition extend (s : PState) (evs : list Event) : PState :=
  {| db := db s; trace := trace s ++ evs; updatesFound := updatesFound s |}.

(** The events a computation adds to the log when run from [s], and the
    table it leaves. *)
Definition events_of {A} (m : Plug A) (s : PState) : list Event :=
  drop (length (trace s)) (trace (snd (m s))).

Definition db_after {A} (m : Plug A) (s : PState) : gmap string string :=
  db (snd (m s)).

(** The buffers of the downloads that succeeded, in the order of the calls. *)
Definition downloaded (evs : list Event) : list Buffer :=
  omap (fun ev => match ev with CallDownloadImage _ result => result | _ => None end) evs.

Definition delivery_for (author : string) (ev : Event) : bool :=
  match ev with
  | SendMessage a _ _ _ => String.eqb a author
  | _ => false
  end.

(** A call that writes the record of [author], whether it returned or threw. *)
Definition write_for (author : string) (ev : Event) : bool :=
  match ev with
  | DbUpsert a _ _ | DbCreate a _ _ => String.eqb a author
  | _ => false
  end.

Definition count (p : Event -> bool) (evs : list Event) : nat :=
  length (List.filter p evs).

(** The calls [handlePixivRequest] makes in the subscription path. *)
Definition gallery_call (ev : Event) : bool :=
  match ev with
  | CallGetArtworkDetail _ | CallDownloadImage _ _ => true
  | _ => false
  end.

(** What the subscription path makes of an artwork id: the message content
    and the calls made for it.  Neither depends on the state. *)
Definition content (config : Config) (w : World) (id : string) : Output * list Event :=
  let run := handlePixivRequest config w None id Middleware true blank in
  (match fst run with Val o => o | Exc _ => ONull end, trace (snd run)).

(** The id at the head of the listing the API returns for an author. *)
Definition latest_id (w : World) (author : string) : option string :=
  match user_illusts w author with
  | Some (latestIllust :: _) => Some (pretty (illust_id latestIllust))
  | _ => None
  end.

(** A subscription the loop does not skip. *)
Definition served (sub : Subscription) : bool :=
  negb (String.eqb (uid sub) "" || bool_decide (channelIds sub = [])).







(** One iteration of the loop of [checkAndPushUpdates], read off
    [check_subscription]: the events it logs, the table it leaves and the
    increment of [updatesFound], from the table it starts with. *)
Definition iteration (config : Config) (w : World) (isManualTrigger : bool)
    (sub : Subscription) (d : gmap string string)
    : list Event * gmap string string * nat :=
  let a := uid sub in
  if negb (served sub) then ([], d, 0%nat)
  else
    match latest_id w a with
    | None => ([CallGetUserIllusts a], d, 0%nat)
    | Some latestId =>
      if negb (database_get_ok w a) then ([CallGetUserIllusts a; DbGet a], d, 0%nat)
      else
        let new := isNew latestId (d !! a) in
        if new || (isManualTrigger && negb (String.eqb latestId "")) then
          let '(out, evs) := content config w latestId in
          if falsy_output out
          then ([CallGetUserIllusts a; DbGet a] ++ evs, d, 1%nat)
          else
            let sends :=
              map (fun channel =>
                     SendMessage a channel (payload out)
                       (sendMessage_ok w channel (payload out)))
                  (channelIds sub) in
            if new then
              ([CallGetUserIllusts a; DbGet a] ++ evs ++ sends
                 ++ [DbUpsert a latestId (database_write_ok w a)],
               if database_write_ok w a then <[a := latestId]> d else d, 1%nat)
            else ([CallGetUserIllusts a; DbGet a] ++ evs ++ sends, d, 1%nat)
        else ([CallGetUserIllusts a; DbGet a], d, 0%nat)
    end.

Fixpoint iterations (config : Config) (w : World) (isManualTrigger : bool)
    (subs : list Subscription) (d : gmap string string)
    : list Event * gmap string string * nat :=
  match subs with
  | [] => ([], d, 0%nat)
  | sub :: rest =>
    let '(evs, d1, n) := iteration config w isManualTrigger sub d in
    let '(evs', d2, n') := iterations config w isManualTrigger rest d1 in
    (evs ++ evs', d2, (n + n')%nat)
  end.

(** A computation that only adds events to the log, the same ones with the
    same result from every state. *)
Definition emitter {A} (m : Plug A) : Prop :=
  exists r evs, forall s, m s = (r, extend s evs).

(* ===================================================================== *)
(** ** The [try] block of [handlePixivRequest], read off [render]        *)
(* ===================================================================== *)

(** [h('quote', { id: session.messageId }) + text] as an outcome. *)
Definition quoted (session : option Session) (text : string) : Res JsError Output :=
  match session with
  | Some s => Val (OQuoted (messageId s) text)
  | None => Exc TypeError
  end.

(** The R-18 policy ends the request before any download: block always,
    warn for a request that is not a subscription push. *)
Definition stopped_by_policy (config : Config) (illust : Illust)
    (isSubscription : bool) : bool :=
  isR18 illust &&
  match r18Action config with
  | ActBlock => true
  | ActWarn => negb isSubscription
  | ActSend => false
  end.

(** The calls of the [try] block and its outcome, as functions of the
    world; [render] is proved to log the first and return the second. *)
Definition render_calls (config : Config) (w : World) (id : string)
    (isSubscription : bool) : list Event :=
  CallGetArtworkDetail id ::
  match artwork_detail w id with
  | Some illust =>
    if stopped_by_policy config illust isSubscription then []
    else map (fun url => CallDownloadImage url (download_image w url)) (imageUrls illust)
  | None => []
  end.

Definition render_outcome (config : Config) (w : World) (session : option Session)
    (id : string) (source : Source) (isSubscription : bool) : Res JsError Output :=
  match artwork_detail w id with
  | None =>
    if isSubscription then Val ONull else quoted session "找不到该 ID 对应的插画作品。"
  | Some illust =>
    if stopped_by_policy config illust isSubscription then
      if isSubscription then Val ONull
      else match r18Action config with
           | ActWarn =>
             quoted session ("[警告] 该作品为 R-18/R-18G 内容！" +:+ nl +:+ "标题: "
                             +:+ title illust +:+ nl +:+ "作者: "
                             +:+ user_name (user illust))
           | _ => quoted session "根据配置，已屏蔽 R-18 作品。"
           end
    else
      match omap (download_image w) (imageUrls illust) with
      | [] =>
        if isSubscription then Val ONull
        else quoted session "所有图片都下载失败了，无法发送。"
      | _ :: _ =>
        compose config w session id source isSubscription illust
          (omap (download_image w) (imageUrls illust))
      end
  end.

(* ===================================================================== *)
(** ** Commands and the link middleware                                  *)
(* ===================================================================== *)

Fixpoint lower_string (s : string) : string :=
  match s with
  | EmptyString => EmptyString
  | String c s' => String (lower c) (lower_string s')
  end.

Definition is_digit (c : ascii) : bool :=
  let n := N_of_ascii c in ((48 <=? n) && (n <=? 57))%N.

Fixpoint all_digits (s : string) : bool :=
  match s with
  | EmptyString => true
  | String c s' => is_digit c && all_digits s'
  end.

(** [/^\d+$/.test(id)] *)
Definition is_numeric (id : string) : bool :=
  negb (String.eqb id "") && all_digits id.

(** What is left of [s] after the literal [pre], if [s] starts with it. *)
Fixpoint strip_prefix (pre s : string) : option string :=
  match pre, s with
  | EmptyString, _ => Some s
  | String p pre', String c s' => if Ascii.eqb p c then strip_prefix pre' s' else None
  | String _ _, EmptyString => None
  end.

(** The longest run of digits at the start of [s]: what a greedy [\d+]
    takes when nothing follows it in the pattern. *)
Fixpoint take_digits (s : string) : string :=
  match s with
  | EmptyString => EmptyString
  | String c s' => if is_digit c then String c (take_digits s') else EmptyString
  end.

(** A match of [/pixiv\.net\/(?:artworks|i)\/(\d+)/] starting at the first
    character of [s], as its capture group. *)
Definition link_at (s : string) : option string :=
  match strip_prefix "pixiv.net/" s with
  | None => None
  | Some rest =>
    match match strip_prefix "artworks/" rest with
          | Some after => Some after
          | None => strip_prefix "i/" rest
          end with
    | None => None
    | Some after =>
      let digits := take_digits after in
      if String.eqb digits "" then None else Some digits
    end
  end.

(** [content.match(...)]: the leftmost match; gives [match[1]]. *)
Fixpoint find_link (content : string) : option string :=
  match link_at content with
  | Some id => Some id
  | None =>
    match content with
    | EmptyString => None
    | String _ rest => find_link rest
    end
  end.

(** What a command or the middleware sends with [session.send]. *)
Inductive Message : Type :=
| MText (text : string)
| MContent (content : Payload).

(** What an action returns: nothing, a text (which the framework sends as
    the reply), the result of [next()], or the value of
    [checkAndPushUpdates]. *)
Inductive Answer : Type :=
| AUndefined
| AText (text : string)
| ANext
| ACheck (result : CheckResult).

(** The state of the plugin together with the messages sent by actions. *)
Record Chat : Type := mkChat {
  plugin : PState;
  sent : list Message
}.

Definition Cmd (A : Type) : Type := M Chat JsError A.

Definition lift_plug {A} (m : Plug A) : Cmd A :=
  fun c => match m (plugin c) with
           | (r, s') => (r, {| plugin := s'; sent := sent c |})
           end.

(** [await session.send(message)] *)
Definition session_reply (w : World) (m : Message) : Cmd unit :=
  fun c => (if session_send_ok w then Val tt else Exc DeliveryError,
            {| plugin := plugin c; sent := sent c ++ [m] |}).


(** [if (result) await session.send(...)] *)
Definition send_result (w : World) (result : Output) : Cmd unit :=
  if falsy_output result then ret tt
  else session_reply w (MContent (payload result)).


(** The middleware.  [content] is [session.content] and [prefix] is
    [ctx.root.config.prefix[0]]. *)
Definition middleware (config : Config) (w : World) (prefix : string)
    (session : Session) (content : string) : Cmd Answer :=
  match find_link content with
  | None => ret ANext
  | Some id =>
    match strip_prefix (prefix +:+ "pid") content with
    | Some _ => ret ANext
    | None =>
      result <- lift_plug (handlePixivRequest config w (Some session) id Middleware false) ;;
      send_result w result ;;;
      ret AUndefined
    end
  end.


(** The action of the [pixivtest] command. *)
Definition pixivtest_command (config : Config) (w : World) (session : Session)
    (author : option string) : Cmd Answer :=
  if negb (enableSubscription config) then ret (AText "订阅功能未启用。")
  else
    match author with
    | None => ret (AText "请输入有效的作者 UID。")
    | Some author =>
      if negb (is_numeric author) then ret (AText "请输入有效的作者 UID。")
      else
        session_reply w (MText ("正在为 [" +:+ author
                                +:+ "] 获取最新作品并模拟推送到当前会话...")) ;;;
        illusts <- lift_plug (call_getUserIllusts w author) ;;
        match illusts with
        | None | Some [] => ret (AText "无法找到该作者的任何作品。")
        | Some (latestIllust :: _) =>
          let latestId := pretty (illust_id latestIllust) in
          session_reply w (MText ("成功获取到最新作品ID: " +:+ latestId +:+ nl
                                  +:+ "正在生成内容...")) ;;;
          messageContent <- lift_plug
            (handlePixivRequest config w (Some session) latestId Middleware true) ;;
          (if falsy_output messageContent
           then session_reply w (MText "内容生成失败。")
           else session_reply w (MContent (payload messageContent))) ;;;
          ret AUndefined
        end
    end.

(* ===================================================================== *)
(** ** The author page: screenshot and [uid] command                     *)
(* ===================================================================== *)

(** The options the [uid] command reads. *)
Record UidConfig : Type := mkUidConfig {
  enableUidCommand : bool;
  sendUserInfoText : bool;
  phpsessid : option string
}.

Record UserInfo : Type := mkUserInfo {
  info_name : string;
  info_account : string;
  info_id : N
}.

Record Profile : Type := mkProfile {
  total_follow_users : Z;
  total_illusts : Z;
  total_manga : Z;
  comment : option string
}.

(** The response of the user detail endpoint, as far as the action reads
    it; either part may be absent. *)
Record UserDetail : Type := mkUserDetail {
  detail_user : option UserInfo;
  detail_profile : option Profile
}.

(** Calls made while an author page is fetched, in the order of the source
    text (the detail request and the screenshot run concurrently). *)
Inductive UidEvent : Type :=
| StatusSend (author : string)
| StatusDelete
| CallGetUserDetail (author : string)
| PageOpen
| SetCookie (value : string)
| Goto (url : string)
| Sleep
| Screenshot
| PageClose
| ReplySend (elements : list Element).

(** The answers of puppeteer, the detail endpoint and the session; [false]
    and [None] stand for a thrown error, which is [browser_error] for
    puppeteer.  The two sends of the action, the status message and the
    reply, have an answer each. *)
Record UidWorld : Type := mkUidWorld {
  user_detail : string -> option UserDetail;
  status_send_ok : bool;
  reply_send_ok : bool;
  page_ok : bool;
  setCookie_ok : bool;
  goto_ok : bool;
  screenshot_result : option Buffer;
  close_ok : bool;
  browser_error : JsError
}.

Definition Uid (A : Type) : Type := M (list UidEvent) JsError A.

Definition log (ev : UidEvent) : Uid unit := fun s => (Val tt, s ++ [ev]).

(** A call that is logged and throws [error] unless [ok]. *)
Definition step (ev : UidEvent) (ok : bool) (error : JsError) : Uid unit :=
  log ev ;;; if ok then ret tt else throw error.

(** [try { body } finally { cleanup }] where the cleanup may throw: its
    error then replaces the outcome of the body. *)
Definition finally_throwing {S E A} (body : M S E A) (cleanup : M S E unit) : M S E A :=
  fun s => match body s with
           | (r, s') =>
             match cleanup s' with
             | (Val _, s'') => (r, s'')
             | (Exc e, s'') => (Exc e, s'')
             end
           end.

Definition takeUserPageScreenshot (ucfg : UidConfig) (uw : UidWorld) (author : string)
    : Uid (option Buffer) :=
  step PageOpen (page_ok uw) (browser_error uw) ;;;
  finally_throwing
    (try_catch
       ((match phpsessid ucfg with
         | Some value =>
           if String.eqb value "" then ret tt
           else step (SetCookie value) (setCookie_ok uw) (browser_error uw)
         | None => ret tt
         end) ;;;
        step (Goto ("https://www.pixiv.net/users/" +:+ author)) (goto_ok uw)
          (browser_error uw) ;;;
        log Sleep ;;;
        log Screenshot ;;;
        match screenshot_result uw with
        | Some image => ret (Some image)
        | None => throw (browser_error uw)
        end)
       (fun error => ret None))
    (step PageClose (close_ok uw) (browser_error uw)).

(** [.replace(/<br \/>/g, newline)]: [skip] counts the characters of a
    match still to be dropped. *)
Fixpoint replace_br (skip : nat) (s : string) : string :=
  match s with
  | EmptyString => EmptyString
  | String c s' =>
    match skip with
    | S k => replace_br k s'
    | O =>
      match strip_prefix "<br />" s with
      | Some _ => nl +:+ replace_br 5 s'
      | None => String c (replace_br 0 s')
      end
    end
  end.

Fixpoint has_gt (s : string) : bool :=
  match s with
  | EmptyString => false
  | String c s' => Ascii.eqb c ">" || has_gt s'
  end.

(** [.replace(/<[^>]*>/g, '')]: a [<] opens a match when a [>] follows
    somewhere, and the match ends at the first one; [inside] tells that a
    match is open. *)
Fixpoint strip_tags (inside : bool) (s : string) : string :=
  match s with
  | EmptyString => EmptyString
  | String c s' =>
    if inside then
      if Ascii.eqb c ">" then strip_tags false s' else strip_tags true s'
    else if Ascii.eqb c "<" then
      if has_gt s' then strip_tags true s' else String c s'
    else String c (strip_tags false s')
  end.

Definition cleanBio (profile : Profile) : string :=
  strip_tags false (replace_br 0 (default "" (comment profile))).





(** The calls a command adds to the log of the plugin. *)
Definition chat_events {A} (m : Cmd A) (c : Chat) : list Event :=
  drop (length (trace (plugin c))) (trace (plugin (snd (m c)))).

(** Some [<] of [s] has a [>] after it, so that [/<[^>]*>/] matches. *)
Fixpoint has_tag (s : string) : bool :=
  match s with
  | EmptyString => false
  | String c s' => (Ascii.eqb c "<" && has_gt s') || has_tag s'
  end.

(** The cookie step of the screenshot does not throw. *)
Definition cookie_passes (ucfg : UidConfig) (uw : UidWorld) : bool :=
  match phpsessid ucfg with
  | Some value => String.eqb value "" || setCookie_ok uw
  | None => true
  end.


(** The calls to the browser. *)
Definition browser_call (ev : UidEvent) : bool :=
  match ev with
  | PageOpen | SetCookie _ | Goto _ | Sleep | Screenshot | PageClose => true
  | _ => false
  end.

(* ===================================================================== *)
(** ** Concrete inputs used by the examples below                        *)
(* ===================================================================== *)

Module Examples.

Definition svc_config : PixivService.Config :=
  {| PixivService.refreshToken := Some "refresh";
     PixivService.clientId := "client";
     PixivService.clientSecret := "secret" |}.

Definition invalid_token_error : HttpError :=
  {| response_status := Some 400;
     response_error_message := Some "Error occurred at the OAuth process. Error Message: invalid_grant";
     error_message := "Request failed with status code 400" |}.

Definition server_error : HttpError :=
  {| response_status := Some 500;
     response_error_message := None;
     error_message := "Request failed with status code 500" |}.

(** First exchange gives a token, the request is refused as invalid, the
    second exchange answers without a token. *)
Definition net_refresh_without_token : PixivService.World :=
  {| PixivService.http_json := fun n =>
       match n with
       | O => Val (JObj [("access_token", JStr "stale")])
       | S O => Exc invalid_token_error
       | _ => Val (JObj [("has_error", JBool true)])
       end;
     PixivService.http_binary := fun _ => Exc server_error |}.

(** First exchange gives a token, the request is refused as invalid, the
    second exchange gives a new token, the resend fails again. *)
Definition net_retry_fails : PixivService.World :=
  {| PixivService.http_json := fun n =>
       match n with
       | O => Val (JObj [("access_token", JStr "first")])
       | S O => Exc invalid_token_error
       | S (S O) => Val (JObj [("access_token", JStr "second")])
       | _ => Exc server_error
       end;
     PixivService.http_binary := fun _ => Exc server_error |}.

(** A token is granted and the user endpoint answers with a body that has
    no [user] field. *)
Definition net_malformed_body : PixivService.World :=
  {| PixivService.http_json := fun n =>
       match n with
       | O => Val (JObj [("access_token", JStr "first")])
       | _ => Val (JObj [("unexpected", JNum 1)])
       end;
     PixivService.http_binary := fun _ => Exc server_error |}.

(** The plugin's configuration with the defaults of the schema where the
    arguments do not say otherwise; the push bot is [onebot:10000]. *)
Definition config_with (act : R18Action) (forward pdf : Z) (compress : bool)
    (subs : list Subscription) : Config :=
  {| sendTags := true; sendAuthor := true; sendLinkWithCommand := false;
     r18Action := act; forwardThreshold := forward; pdfThreshold := pdf;
     autoPdfForR18 := true; pdfPassword := None; pdfSendMode := ModeBuffer;
     enableCompression := compress; compressionQuality := 80;
     enableSubscription := true; subscriptions := subs;
     pushBotPlatform := Some "onebot"; pushBotId := Some "10000" |}.

Definition png : Buffer := [x89; x50; x4e; x47].

(** Stands for the JPEG file sharp encodes from an image. *)
Definition jpeg_of (image : Buffer) : Buffer := xff :: xd8 :: xff :: image.

Definition artwork (n : N) (name : string) (restrict : Z) (urls : list string) : Illust :=
  {| illust_id := n; title := name; user := {| user_name := "author" |};
     tags := [{| tag_name := "tag" |}]; x_restrict := restrict;
     meta_pages := urls; meta_single_page := "single" |}.

Definition session : Session :=
  {| messageId := "m1"; platform := "onebot"; channelId := "c1" |}.

Definition online_bot : Bot :=
  {| bot_platform := "onebot"; selfId := "10000"; status := 1 |}.

(** A world in which every download succeeds with the same image, sharp
    behaves as [sharp] says and reports every image as 640 by 480, every
    message is delivered and the database works. *)
Definition world_with (detail : string -> option Illust)
    (listing : string -> option (list Illust))
    (sharp : option Z -> Buffer -> option Buffer) (present : list Bot) : World :=
  {| artwork_detail := detail; user_illusts := listing;
     download_image := fun _ => Some png;
     sharp_toFile := sharp; sharp_metadata := fun _ => Some (640, 480);
     bots := present; session_send_ok := true;
     sendMessage_ok := fun _ _ => true;
     database_get_ok := fun _ => true; database_write_ok := fun _ => true |}.

Definition sharp_encodes : option Z -> Buffer -> option Buffer :=
  fun _ image => Some (jpeg_of image).

Definition sharp_rejects : option Z -> Buffer -> option Buffer :=
  fun _ _ => None.

Definition ten_pages : list string :=
  ["p0"; "p1"; "p2"; "p3"; "p4"; "p5"; "p6"; "p7"; "p8"; "p9"].

Definition one_artwork (a : Illust) : string -> option Illust :=
  fun id => if String.eqb id (pretty (illust_id a)) then Some a else None.

Definition no_listing : string -> option (list Illust) := fun _ => None.

Definition listing_of (author : string) (l : list Illust)
    : string -> option (list Illust) :=
  fun a => if String.eqb a author then Some l else None.

Definition state_of (d : gmap string string) : PState :=
  {| db := d; trace := []; updatesFound := 0 |}.

(** Author 7, pushed to two groups. *)
Definition sub7 : Subscription :=
  {| uid := "7"; sub_name := "seven"; channelIds := ["g1"; "g2"] |}.

Definition tracker_config (act : R18Action) : Config :=
  config_with act 3 10 true [sub7].

(** The listing of author 7 starts with [latest], which can be fetched and
    whose one image can be downloaded. *)
Definition tracker_world (latest : Illust) (present : list Bot) : World :=
  world_with (one_artwork latest) (listing_of "7" [latest]) sharp_encodes present.

Definition art100 : Illust := artwork 100 "new work" 0 [].
Definition art100_r18 : Illust := artwork 100 "new work" 1 [].

(** A token is granted and the request is answered. *)
Definition net_answers : PixivService.World :=
  {| PixivService.http_json := fun n =>
       match n with
       | O => Val (JObj [("access_token", JStr "first")])
       | _ => Val (JObj [("illust", JObj [("id", JNum 7)])])
       end;
     PixivService.http_binary := fun _ => Exc server_error |}.

(** Every call fails with a server error. *)
Definition net_down : PixivService.World :=
  {| PixivService.http_json := fun _ => Exc server_error;
     PixivService.http_binary := fun _ => Exc server_error |}.

Definition holding (token : string) : PixivService.State :=
  {| PixivService.accessToken := JStr token; PixivService.calls := [] |}.

(** Like [world_with], but only the urls in [good] can be downloaded. *)
Definition world_with_downloads (detail : string -> option Illust)
    (good : list string) : World :=
  {| artwork_detail := detail; user_illusts := no_listing;
     download_image := fun url => if existsb (String.eqb url) good then Some png else None;
     sharp_toFile := sharp_encodes; sharp_metadata := fun _ => Some (640, 480);
     bots := []; session_send_ok := true;
     sendMessage_ok := fun _ _ => true;
     database_get_ok := fun _ => true; database_write_ok := fun _ => true |}.

(** Like [tracker_world] with the bot online, but every send to group g1
    throws. *)
Definition flaky_world (latest : Illust) : World :=
  {| artwork_detail := one_artwork latest; user_illusts := listing_of "7" [latest];
     download_image := fun _ => Some png;
     sharp_toFile := sharp_encodes; sharp_metadata := fun _ => Some (640, 480);
     bots := [online_bot]; session_send_ok := true;
     sendMessage_ok := fun channel _ => negb (String.eqb channel "g1");
     database_get_ok := fun _ => true; database_write_ok := fun _ => true |}.

(** Like [tracker_world] with the bot online, but the table cannot be read. *)
Definition unreadable_world (latest : Illust) : World :=
  {| artwork_detail := one_artwork latest; user_illusts := listing_of "7" [latest];
     download_image := fun _ => Some png;
     sharp_toFile := sharp_encodes; sharp_metadata := fun _ => Some (640, 480);
     bots := [online_bot]; session_send_ok := true;
     sendMessage_ok := fun _ _ => true;
     database_get_ok := fun _ => false; database_write_ok := fun _ => true |}.

Definition quiet : Chat := {| plugin := blank; sent := [] |}.

(** The [uid] command enabled, with the text block and a session cookie. *)
Definition uid_config : UidConfig :=
  {| enableUidCommand := true; sendUserInfoText := true; phpsessid := Some "cookie" |}.

(** The browser opens the page and sets the cookie, the navigation then
    times out; the detail endpoint knows nobody; the status message goes
    out and the reply is refused. *)
Definition slow_page : UidWorld :=
  {| user_detail := fun _ => None; status_send_ok := true; reply_send_ok := false;
     page_ok := true;
     setCookie_ok := true; goto_ok := false; screenshot_result := Some png;
     close_ok := true; browser_error := RenderError |}.

End Examples.

(* ===================================================================== *)
(** ** The model at work on small inputs                                 *)
(* ===================================================================== *)

Example invalid_token_re_ignores_case :
  invalid_token_re "Error Message: Invalid_Grant" = true
  /\ invalid_token_re "the token is INVALID_TOKEN now" = true
  /\ invalid_token_re "Rate Limit" = false.
Proof. repeat split. Qed.

Example safeTitle_replaces_path_characters :
  safeTitle (Examples.artwork 1 "a/b:c*d?e" 0 []) = Val "a_b_c_d_e".
Proof. reflexivity. Qed.

Example textInfo_of_a_link :
  textInfo (Examples.config_with ActWarn 3 10 true []) Examples.art100 "100" Middleware false
  = "[标题] new work" +:+ nl +:+ "[作者] author" +:+ nl +:+ "[标签] tag".
Proof. reflexivity. Qed.

Example imageUrls_single_and_multi :
  imageUrls (Examples.artwork 1 "t" 0 []) = ["single"]
  /\ imageUrls (Examples.artwork 1 "t" 0 ["p0"; "p1"]) = ["p0"; "p1"].
Proof. split; reflexivity. Qed.

(** A new artwork in a cycle: listing, record, artwork detail, download,
    one send per channel, upsert. *)
Example cycle_with_new_artwork :
  let config := Examples.tracker_config ActSend in
  let w := Examples.tracker_world Examples.art100 [Examples.online_bot] in
  exists message,
    events_of (checkAndPushUpdates config w false) blank
    = [CallGetUserIllusts "7"; DbGet "7"; CallGetArtworkDetail "100";
       CallDownloadImage "single" (Some Examples.png);
       SendMessage "7" "g1" message true; SendMessage "7" "g2" message true;
       DbUpsert "7" "100" true].
Proof. eexists. reflexivity. Qed.

(* ===================================================================== *)
(** ** Properties of the credential manager and the gallery client       *)
(* ===================================================================== *)

Section Service.

Import PixivService.

Variable cfg : PixivService.Config.
Variable w : PixivService.World.

Local Arguments is_auth_failure : simpl never.

Lemma refresh_calls s :
  _refreshAccessToken cfg w s =
  if configured cfg then
    match exchanged (http_json w (length (calls s))) with
    | Some tok =>
      (Val true,
       {| accessToken := tok;
          calls := calls s ++ [PostToken (clientId cfg) (clientSecret cfg)
                                 (default "" (refreshToken cfg))] |})
    | None =>
      (Val false,
       {| accessToken :=
            match http_json w (length (calls s)) with
            | Val response =>
              match get_prop response "access_token" with
              | Val _ => accessToken s
              | Exc _ => JNull
              end
            | Exc _ => JNull
            end;
          calls := calls s ++ [PostToken (clientId cfg) (clientSecret cfg)
                                 (default "" (refreshToken cfg))] |})
    end
  else (Val false, s).
Proof.
  unfold _refreshAccessToken, configured, exchanged.
  destruct (refreshToken cfg) as [t|]; [|reflexivity].
  destruct (String.eqb t ""); [reflexivity|]. simpl.
  unfold try_catch, bind, http_call, lift_res, of_http, set_token, modify, ret.
  destruct (http_json w (length (calls s))) as [response|e]; simpl; [|reflexivity].
  destruct (get_prop response "access_token") as [tok|e]; simpl; [|reflexivity].
  destruct (truthy tok); reflexivity.
Qed.

Lemma refresh_true_truthy s s' :
  _refreshAccessToken cfg w s = (Val true, s') ->
  truthy (accessToken s') = true /\ configured cfg = true.
Proof.
  rewrite refresh_calls. destruct (configured cfg); [|discriminate].
  unfold exchanged.
  destruct (http_json w (length (calls s))) as [response|e]; simpl; [|discriminate].
  destruct (get_prop response "access_token") as [tok|e]; simpl; [|discriminate].
  destruct (truthy tok) eqn:Htok; [|discriminate].
  intros [= <-]. simpl. auto.
Qed.

Lemma refresh_justified s :
  token_justified cfg s -> token_justified cfg (snd (_refreshAccessToken cfg w s)).
Proof.
  unfold token_justified. intros Hs. rewrite refresh_calls.
  destruct (configured cfg); [auto|]. exact Hs.
Qed.

Lemma refresh_never_throws s : exists b, fst (_refreshAccessToken cfg w s) = Val b.
Proof.
  rewrite refresh_calls. destruct (configured cfg); [|eauto].
  destruct (exchanged _); eauto.
Qed.

Lemma makeRequest_run url params s :
  makeRequest w url params s =
  (of_http (http_json w (length (calls s))),
   {| accessToken := accessToken s;
      calls := calls s ++ [Get url params (accessToken s)] |}).
Proof. reflexivity. Qed.

Lemma ensure_token_justified s :
  token_justified cfg s -> token_justified cfg (snd (ensure_token cfg w s)).
Proof.
  intros Hs. unfold ensure_token, bind, gets. simpl.
  destruct (truthy (accessToken s)); simpl; [exact Hs|].
  pose proof (refresh_justified s Hs) as Hr.
  destruct (_refreshAccessToken cfg w s) as [[b|e] s1]; simpl in *; [|exact Hr].
  destruct b; simpl; exact Hr.
Qed.

Lemma ensure_token_ok s s1 :
  ensure_token cfg w s = (Val tt, s1) -> truthy (accessToken s1) = true.
Proof.
  unfold ensure_token, bind, gets. simpl.
  destruct (truthy (accessToken s)) eqn:Ht; simpl.
  - intros [= <-]. exact Ht.
  - destruct (_refreshAccessToken cfg w s) as [[b|e] s'] eqn:Hr; [|discriminate].
    destruct b; simpl; [|discriminate].
    intros [= <-]. apply (refresh_true_truthy _ _ Hr).
Qed.

Lemma request_justified url params s :
  token_justified cfg s -> token_justified cfg (snd (_request cfg w url params s)).
Proof.
  intros Hs. unfold _request, bind at 1.
  pose proof (ensure_token_justified s Hs) as H1.
  destruct (ensure_token cfg w s) as [[[]|e] s1]; simpl in *; [|exact H1].
  unfold try_catch. rewrite makeRequest_run.
  destruct (http_json w (length (calls s1))) as [v|e]; simpl; [exact H1|].
  set (s2 := {| accessToken := accessToken s1; calls := _ |}).
  assert (token_justified cfg s2) as H2 by exact H1.
  destruct (is_auth_failure (HttpFailure e)); [|exact H2].
  unfold bind. pose proof (refresh_justified s2 H2) as H3.
  destruct (_refreshAccessToken cfg w s2) as [[b|e'] s3]; simpl in *; [|exact H3].
  destruct b; [|exact H3]. rewrite makeRequest_run. simpl. exact H3.
Qed.

End Service.

Section ServiceClaims.

Import PixivService.

Variable cfg : PixivService.Config.
Variable w : PixivService.World.

Local Arguments is_auth_failure : simpl never.

Lemma accessor_state {A} (body : Svc A) (fallback : A) s :
  snd (try_catch body (fun _ => ret fallback) s) = snd (body s).
Proof. unfold try_catch, ret. destruct (body s) as [[a|e] s']; reflexivity. Qed.

Lemma bind_lift_state {A B} (m : Svc A) (f : A -> Res JsError B) s :
  snd ((x <- m ;; lift_res (f x)) s) = snd (m s).
Proof. unfold bind, lift_res. destruct (m s) as [[a|e] s']; reflexivity. Qed.

Lemma bind_ret_state {A} (m : Svc A) s :
  snd ((x <- m ;; ret x) s) = snd (m s).
Proof. unfold bind, ret. destruct (m s) as [[a|e] s']; reflexivity. Qed.

Lemma reachable_justified s : reachable cfg s -> token_justified cfg s.
Proof.
  induction 1 as [|w' pid s Hs IH|w' url s Hs IH|w' uid s Hs IH|w' uid s Hs IH].
  - intros Ht. discriminate Ht.
  - unfold getArtworkDetail. rewrite accessor_state, bind_lift_state.
    apply request_justified, IH.
  - unfold downloadImage. rewrite accessor_state.
    unfold bind, http_call_binary.
    destruct (of_http _) as [b|e]; exact IH.
  - unfold getUserDetail. rewrite accessor_state, bind_ret_state.
    apply request_justified, IH.
  - unfold getUserIllusts. rewrite accessor_state, bind_lift_state.
    apply request_justified, IH.
Qed.

(** C3.  A request whose first attempt is refused with HTTP 400 and an
    invalid_grant / invalid_token message makes exactly one token exchange
    after it; when the exchange yields a token the request is sent exactly
    once more, and the outcome of that second attempt, value or error, is
    the outcome of the call; when it yields none the first error is thrown.
    The call log shows that nothing else is sent. *)
Theorem request_refreshes_and_retries_once url params s0 s e :
  reachable cfg s0 ->
  ensure_token cfg w s0 = (Val tt, s) ->
  http_json w (length (calls s)) = Exc e ->
  is_auth_failure (HttpFailure e) = true ->
  let n := length (calls s) in
  let first := Get url params (accessToken s) in
  let exchange :=
    PostToken (clientId cfg) (clientSecret cfg) (default "" (refreshToken cfg)) in
  match exchanged (http_json w (S n)) with
  | Some tok =>
    _request cfg w url params s0 =
    (of_http (http_json w (S (S n))),
     {| accessToken := tok;
        calls := (calls s ++ [first; exchange; Get url params tok])%list |})
  | None =>
    fst (_request cfg w url params s0) = Exc (HttpFailure e) /\
    calls (snd (_request cfg w url params s0)) = (calls s ++ [first; exchange])%list
  end.
Proof.
  intros Hreach Hens Hfirst Hauth n first exchange.
  assert (configured cfg = true) as Hcfg.
  { pose proof (ensure_token_justified cfg w s0 (reachable_justified s0 Hreach)) as Hj.
    rewrite Hens in Hj. apply Hj, (ensure_token_ok cfg w s0 s Hens). }
  assert (_request cfg w url params s0 =
          match _refreshAccessToken cfg w
                  {| accessToken := accessToken s; calls := (calls s ++ [first])%list |} with
          | (Val true, s3) => makeRequest w url params s3
          | (Val false, s3) => (Exc (HttpFailure e), s3)
          | (Exc e', s3) => (Exc e', s3)
          end) as Hrun.
  { unfold _request, bind at 1. rewrite Hens.
    unfold try_catch. rewrite makeRequest_run, Hfirst. simpl of_http. cbv iota.
    rewrite Hauth. unfold bind.
    destruct (_refreshAccessToken cfg w _) as [[[]|e'] s3]; reflexivity. }
  rewrite Hrun, refresh_calls, Hcfg.
  simpl calls. rewrite length_app. simpl length.
  replace (length (calls s) + 1)%nat with (S n) by (subst n; lia).
  destruct (exchanged (http_json w (S n))) as [tok|] eqn:Hex.
  - rewrite makeRequest_run. simpl calls. simpl accessToken.
    rewrite !length_app. simpl length.
    replace (length (calls s) + 1 + 1)%nat with (S (S n)) by (subst n; lia).
    rewrite <- !app_assoc. reflexivity.
  - simpl. rewrite <- app_assoc. split; reflexivity.
Qed.

End ServiceClaims.

Lemma request_refreshes_and_retries_once_witness :
  PixivService._request Examples.svc_config Examples.net_retry_fails "u" [] PixivService.init =
  (Exc (HttpFailure Examples.server_error),
   {| PixivService.accessToken := JStr "second";
      PixivService.calls :=
        [PixivService.PostToken "client" "secret" "refresh";
         PixivService.Get "u" [] (JStr "first");
         PixivService.PostToken "client" "secret" "refresh";
         PixivService.Get "u" [] (JStr "second")] |}).
Proof.
  exact (request_refreshes_and_retries_once Examples.svc_config Examples.net_retry_fails
           "u" [] PixivService.init
           {| PixivService.accessToken := JStr "first";
              PixivService.calls := [PixivService.PostToken "client" "secret" "refresh"] |}
           Examples.invalid_token_error
           (PixivService.reach_init _) eq_refl eq_refl eq_refl).
Defined.

Section TokenRefresh.

Import PixivService.

Variable cfg : PixivService.Config.
Variable w : PixivService.World.

(** A refresh that succeeds overwrites the held token with the new one. *)
Lemma refresh_success_overwrites s s' :
  _refreshAccessToken cfg w s = (Val true, s') ->
  exchanged (http_json w (length (calls s))) = Some (accessToken s').
Proof.
  rewrite refresh_calls. destruct (configured cfg); [|discriminate].
  destruct (exchanged _) as [tok|]; [|discriminate].
  intros [= <-]. reflexivity.
Qed.

(** A refresh whose exchange throws clears the token. *)
Lemma refresh_throw_clears s e :
  configured cfg = true ->
  http_json w (length (calls s)) = Exc e ->
  fst (_refreshAccessToken cfg w s) = Val false /\
  accessToken (snd (_refreshAccessToken cfg w s)) = JNull.
Proof.
  intros Hcfg He. rewrite refresh_calls, Hcfg, He. simpl. auto.
Qed.

(** A refresh whose exchange returns a body without a truthy
    [access_token] fails and leaves the held token as it was. *)
Lemma refresh_without_token_keeps s fields :
  configured cfg = true ->
  http_json w (length (calls s)) = Val (JObj fields) ->
  truthy (assoc "access_token" fields) = false ->
  fst (_refreshAccessToken cfg w s) = Val false /\
  accessToken (snd (_refreshAccessToken cfg w s)) = accessToken s.
Proof.
  intros Hcfg Hr Ht. rewrite refresh_calls, Hcfg. unfold exchanged.
  rewrite Hr. simpl. rewrite Ht. simpl. auto.
Qed.

(** C6, as amended.  No accessor throws.  Each gives null when the request
    layer throws, and the detail and listing accessors also when the body
    is null or undefined; a body that arrives is otherwise handed on
    unchecked: as it is by [getUserDetail], as its [illust] / [illusts]
    property, undefined when absent, by the other two. *)
Theorem accessors_turn_thrown_errors_into_null pid uid url s :
  fst (getArtworkDetail cfg w pid s) =
    Val match fst (_request cfg w "https://app-api.pixiv.net/v1/illust/detail"
                     [("illust_id", pid); ("filter", "for_ios")] s) with
        | Val (JObj fields) => assoc "illust" fields
        | Val (JUndefined | JNull) | Exc _ => JNull
        | Val _ => JUndefined
        end
  /\ fst (getUserDetail cfg w uid s) =
    Val match fst (_request cfg w "https://app-api.pixiv.net/v1/user/detail"
                     [("user_id", uid)] s) with
        | Val response => response
        | Exc _ => JNull
        end
  /\ fst (getUserIllusts cfg w uid s) =
    Val match fst (_request cfg w "https://app-api.pixiv.net/v1/user/illusts"
                     [("user_id", uid); ("filter", "for_ios")] s) with
        | Val (JObj fields) => assoc "illusts" fields
        | Val (JUndefined | JNull) | Exc _ => JNull
        | Val _ => JUndefined
        end
  /\ fst (downloadImage w url s) =
    Val match http_binary w (length (calls s)) with
        | Val arrayBuffer => Some arrayBuffer
        | Exc _ => None
        end.
Proof.
  repeat split.
  - unfold getArtworkDetail, try_catch, bind, lift_res, ret.
    destruct (_request cfg w _ _ s) as [[response|e] s']; [|reflexivity].
    destruct response; reflexivity.
  - unfold getUserDetail, try_catch, bind, ret.
    destruct (_request cfg w _ _ s) as [[response|e] s']; reflexivity.
  - unfold getUserIllusts, try_catch, bind, lift_res, ret.
    destruct (_request cfg w _ _ s) as [[response|e] s']; [|reflexivity].
    destruct response; reflexivity.
  - unfold downloadImage, try_catch, bind, http_call_binary, of_http, ret.
    destruct (http_binary w _); reflexivity.
Qed.

End TokenRefresh.

(** C5, at the input where the code departs from it.  The service gets the
    token "stale", the request is refused as invalid, and the forced
    refresh is answered without a token: the refresh has failed, the first
    error reaches the caller, and the held token is still "stale", not
    null. *)
Theorem failed_refresh_keeps_stale_token :
  let run := PixivService._request Examples.svc_config
               Examples.net_refresh_without_token "u" [] PixivService.init in
  fst run = Exc (HttpFailure Examples.invalid_token_error)
  /\ PixivService.accessToken (snd run) = JStr "stale"
  /\ PixivService.calls (snd run) =
       [PixivService.PostToken "client" "secret" "refresh";
        PixivService.Get "u" [] (JStr "stale");
        PixivService.PostToken "client" "secret" "refresh"].
Proof. repeat split. Qed.

(** C6 as stated fails: a body that arrives without the [user] field is a
    malformed response, and [getUserDetail] returns it, not null. *)
Lemma getUserDetail_returns_malformed_body :
  fst (PixivService.getUserDetail Examples.svc_config Examples.net_malformed_body
         "11" PixivService.init) = Val (JObj [("unexpected", JNum 1)])
  /\ get_prop (JObj [("unexpected", JNum 1)]) "user" = Val JUndefined
  /\ fst (PixivService.getUserDetail Examples.svc_config Examples.net_malformed_body
            "11" PixivService.init) <> Val JNull.
Proof. repeat split. discriminate. Qed.

(* ===================================================================== *)
(** ** Properties of the output renderer                                 *)
(* ===================================================================== *)

Lemma extend_nil s : extend s [] = s.
Proof. destruct s. unfold extend. simpl. rewrite app_nil_r. reflexivity. Qed.

Lemma extend_extend s evs evs' : extend (extend s evs) evs' = extend s (evs ++ evs').
Proof. unfold extend. simpl. rewrite app_assoc. reflexivity. Qed.

Lemma events_of_extend {A} (m : Plug A) s r evs :
  m s = (r, extend s evs) -> events_of m s = evs.
Proof.
  intros H. unfold events_of. rewrite H. simpl. apply drop_app_length.
Qed.

Section Emitters.

Context {A B : Type}.

Lemma emitter_ret (a : A) : emitter (ret a).
Proof. exists (Val a), []. intros s. unfold ret. rewrite extend_nil. reflexivity. Qed.

Lemma emitter_throw (e : JsError) : emitter (@throw PState JsError A e).
Proof. exists (Exc e), []. intros s. unfold throw. rewrite extend_nil. reflexivity. Qed.

Lemma emitter_lift_res (r : Res JsError A) : emitter (lift_res r).
Proof. exists r, []. intros s. unfold lift_res. rewrite extend_nil. reflexivity. Qed.

Lemma emitter_bind (m : Plug A) (k : A -> Plug B) :
  emitter m -> (forall a, emitter (k a)) -> emitter (bind m k).
Proof.
  intros (r & evs & Hm) Hk. destruct r as [a|e].
  - destruct (Hk a) as (r' & evs' & Hka).
    exists r', (evs ++ evs'). intros s. unfold bind.
    rewrite Hm, Hka, extend_extend. reflexivity.
  - exists (Exc e), evs. intros s. unfold bind. rewrite Hm. reflexivity.
Qed.

Lemma emitter_try_catch (m : Plug A) (h : JsError -> Plug A) :
  emitter m -> (forall e, emitter (h e)) -> emitter (try_catch m h).
Proof.
  intros (r & evs & Hm) Hh. destruct r as [a|e].
  - exists (Val a), evs. intros s. unfold try_catch. rewrite Hm. reflexivity.
  - destruct (Hh e) as (r' & evs' & Hhe).
    exists r', (evs ++ evs'). intros s. unfold try_catch.
    rewrite Hm, Hhe, extend_extend. reflexivity.
Qed.

Lemma emitter_finally (m : Plug A) (c : Plug unit) :
  emitter m -> emitter c -> emitter (finally m c).
Proof.
  intros (r & evs & Hm) (r' & evs' & Hc).
  exists r, (evs ++ evs'). intros s. unfold finally.
  rewrite Hm, Hc. simpl. rewrite extend_extend. reflexivity.
Qed.

End Emitters.

Lemma emitter_map_all {A B} (l : list A) (f : A -> Plug B) :
  (forall a, emitter (f a)) -> emitter (map_all l f).
Proof.
  intros Hf. induction l as [|x l IH]; simpl.
  - exists (Val []), []. intros s. unfold ret. rewrite extend_nil. reflexivity.
  - apply emitter_bind; [apply Hf|]. intros y.
    destruct IH as (r & evs & Hl). destruct r as [ys|e].
    + exists (Val (y :: ys)), evs. intros s. unfold bind, ret. rewrite Hl. reflexivity.
    + exists (Exc e), evs. intros s. unfold bind. rewrite Hl. reflexivity.
Qed.

Lemma emitter_emit ev : emitter (emit ev).
Proof. exists (Val tt), [ev]. intros s. reflexivity. Qed.

Lemma emitter_run {A} (m : Plug A) :
  emitter m -> forall s, m s = (fst (m blank), extend s (trace (snd (m blank)))).
Proof.
  intros (r & evs & Hm) s. rewrite (Hm blank), (Hm s). reflexivity.
Qed.

Ltac emitter_step :=
  match goal with
  | |- emitter (bind _ _) => apply emitter_bind; [|intros ?]
  | |- emitter (try_catch _ _) => apply emitter_try_catch; [|intros ?]
  | |- emitter (finally _ _) => apply emitter_finally
  | |- emitter (map_all _ _) => apply emitter_map_all; intros ?
  | |- emitter (ret _) => apply emitter_ret
  | |- emitter (throw _) => apply emitter_throw
  | |- emitter (lift_res _) => apply emitter_lift_res
  | |- emitter (emit _) => apply emitter_emit
  | |- emitter (quote ?s _) => destruct s; simpl
  | |- emitter (if ?b then _ else _) => destruct b
  | |- emitter (match ?x with _ => _ end) => destruct x
  | |- emitter (let _ := _ in _) => cbv zeta
  end.

Lemma emitter_render config w session id source isSubscription :
  emitter (render config w session id source isSubscription).
Proof.
  unfold render, call_getArtworkDetail, call_downloadImage.
  repeat emitter_step.
Qed.

Lemma emitter_handlePixivRequest config w session id source isSubscription :
  emitter (handlePixivRequest config w session id source isSubscription).
Proof.
  unfold handlePixivRequest, session_send.
  repeat (emitter_step || apply emitter_render).
Qed.

Lemma map_all_download w urls s :
  map_all urls (call_downloadImage w) s =
  (Val (map (download_image w) urls),
   extend s (map (fun url => CallDownloadImage url (download_image w url)) urls)).
Proof.
  revert s. induction urls as [|url urls IH]; intros s; simpl.
  - unfold ret. rewrite extend_nil. reflexivity.
  - unfold bind at 1. unfold call_downloadImage at 1. unfold bind at 1, emit, modify, ret.
    unfold bind. rewrite IH. unfold extend. simpl.
    rewrite <- app_assoc. reflexivity.
Qed.

Lemma downloaded_app evs evs' : downloaded (evs ++ evs') = downloaded evs ++ downloaded evs'.
Proof. unfold downloaded. apply omap_app. Qed.

Lemma downloaded_calls w urls :
  downloaded (map (fun url => CallDownloadImage url (download_image w url)) urls)
  = omap (download_image w) urls.
Proof.
  unfold downloaded.
  induction urls as [|url urls IH]; [reflexivity|].
  cbn. rewrite IH. reflexivity.
Qed.

Lemma downloaded_detail id evs :
  downloaded (CallGetArtworkDetail id :: evs) = downloaded evs.
Proof. reflexivity. Qed.

Lemma omap_id_map {A B} (f : A -> option B) (l : list A) :
  omap (fun result => result) (map f l) = omap f l.
Proof.
  induction l as [|x l IH]; [reflexivity|]. cbn. rewrite IH. reflexivity.
Qed.

(** The two shapes of a run of the [try] block: it stops before any
    download, or it downloads every url of the artwork and, when a buffer
    came back, composes the payload. *)
Lemma render_cases config w session id source isSubscription :
  (exists r, forall s,
      render config w session id source isSubscription s
      = (r, extend s [CallGetArtworkDetail id]))
  \/
  (exists illust r,
      artwork_detail w id = Some illust
      /\ (forall s,
            render config w session id source isSubscription s
            = (r, extend s (CallGetArtworkDetail id ::
                            map (fun url => CallDownloadImage url (download_image w url))
                                (imageUrls illust))))
      /\ (omap (download_image w) (imageUrls illust) <> [] ->
          r = compose config w session id source isSubscription illust
                (omap (download_image w) (imageUrls illust)))).
Proof.
  assert (forall (o : Plug Output),
             (exists r, forall s, o s = (r, s)) ->
             exists r, forall s,
               (call_getArtworkDetail w id ;;; o) s
               = (r, extend s [CallGetArtworkDetail id])) as Hstop.
  { intros o [r Ho]. exists r. intros s.
    unfold bind, call_getArtworkDetail, emit, modify, ret. simpl. rewrite Ho. reflexivity. }
  assert (forall text, exists r, forall s : PState, quote session text s = (r, s)) as Hquote.
  { intros text. destruct session as [se|]; simpl; eexists; intros s; reflexivity. }
  assert (forall o : Output, exists r, forall s : PState,
               @ret PState JsError Output o s = (r, s)) as Hret.
  { intros o. eexists; intros s; reflexivity. }
  assert (forall illust, artwork_detail w id = Some illust ->
            exists r,
              (forall s,
                 (call_getArtworkDetail w id ;;;
                  results <- map_all (imageUrls illust) (call_downloadImage w) ;;
                  match omap (fun result => result) results with
                  | [] => if isSubscription then ret ONull
                          else quote session "所有图片都下载失败了，无法发送。"
                  | _ :: _ =>
                    lift_res (compose config w session id source isSubscription illust
                                (omap (fun result => result) results))
                  end) s
                 = (r, extend s (CallGetArtworkDetail id ::
                                 map (fun url => CallDownloadImage url (download_image w url))
                                     (imageUrls illust))))
              /\ (omap (download_image w) (imageUrls illust) <> [] ->
                  r = compose config w session id source isSubscription illust
                        (omap (download_image w) (imageUrls illust)))) as Hload.
  { intros illust Hd.
    destruct (omap (download_image w) (imageUrls illust)) as [|b bs] eqn:Hbufs.
    - destruct (Hquote "所有图片都下载失败了，无法发送。") as [rq Hq].
      exists (if isSubscription then Val ONull else rq). split; [|congruence].
      intros s. unfold bind at 1. unfold call_getArtworkDetail, bind at 1, emit, modify, ret.
      simpl. unfold bind. rewrite map_all_download, omap_id_map, Hbufs.
      destruct isSubscription; [|rewrite Hq]; unfold extend; simpl;
        rewrite <- app_assoc; reflexivity.
    - exists (compose config w session id source isSubscription illust (b :: bs)).
      split; [|reflexivity].
      intros s. unfold bind at 1. unfold call_getArtworkDetail, bind at 1, emit, modify, ret.
      simpl. unfold bind. rewrite map_all_download, omap_id_map, Hbufs.
      unfold lift_res, extend. simpl. rewrite <- app_assoc. reflexivity. }
  unfold render.
  destruct (artwork_detail w id) as [illust|] eqn:Hd.
  - assert (forall k : option Illust -> Plug Output,
               (found <- call_getArtworkDetail w id ;; k found)
               = (call_getArtworkDetail w id ;;; k (Some illust))) as Hk.
    { intros k. unfold bind, call_getArtworkDetail, emit, modify, ret. simpl.
      rewrite Hd. reflexivity. }
    rewrite Hk. cbv beta iota.
    destruct (isR18 illust), (r18Action config), isSubscription;
      first [ left; apply Hstop; first [apply Hquote | apply Hret]
            | right; destruct (Hload illust eq_refl) as (r & Hrun & Hr);
              exists illust, r; auto ].
  - left.
    assert (forall k : option Illust -> Plug Output,
               (found <- call_getArtworkDetail w id ;; k found)
               = (call_getArtworkDetail w id ;;; k None)) as Hk.
    { intros k. unfold bind, call_getArtworkDetail, emit, modify, ret. simpl.
      rewrite Hd. reflexivity. }
    rewrite Hk. cbv beta iota. apply Hstop.
    destruct isSubscription; [apply Hret | apply Hquote].
Qed.

Lemma handle_run config w session id source isSubscription r evs :
  (forall s, render config w session id source isSubscription s = (r, extend s evs)) ->
  forall s,
    handlePixivRequest config w session id source isSubscription s =
    if isSubscription then
      (Val match r with Val o => o | Exc _ => ONull end, extend s evs)
    else
      match session with
      | None => (Exc TypeError, s)
      | Some se =>
        if session_send_ok w then
          (Val match r with Val o => o | Exc e => OUnknownError (messageId se) e end,
           extend s ([SessionSend id] ++ evs ++ [DeleteMessage]))
        else (Exc DeliveryError, extend s [SessionSend id])
      end.
Proof.
  intros Hr s. unfold handlePixivRequest.
  destruct isSubscription.
  - unfold bind, ret, finally, try_catch. rewrite Hr.
    destruct r as [o|e]; simpl; reflexivity.
  - destruct session as [se|]; [|reflexivity].
    unfold session_send, bind, emit, modify, ret, throw, finally, try_catch. simpl.
    destruct (session_send_ok w); [|reflexivity].
    rewrite Hr. destruct r as [o|e]; unfold extend; simpl; rewrite <- !app_assoc; reflexivity.
Qed.

(** A request that downloaded at least one image found the artwork, passed
    the R-18 policy, and answers with the payload composed for the
    downloaded buffers; an error thrown while composing becomes, through the
    handler, nothing for a subscription and an error reply otherwise. *)
Lemma handle_downloaded config w session id source isSubscription s :
  let run := handlePixivRequest config w session id source isSubscription in
  downloaded (events_of run s) <> [] ->
  exists illust,
    artwork_detail w id = Some illust
    /\ downloaded (events_of run s) = omap (download_image w) (imageUrls illust)
    /\ fst (run s) =
       Val match compose config w session id source isSubscription illust
                     (omap (download_image w) (imageUrls illust)) with
           | Val o => o
           | Exc e =>
             if isSubscription then ONull
             else match session with
                  | Some se => OUnknownError (messageId se) e
                  | None => ONull
                  end
           end.
Proof.
  intros run. subst run.
  destruct (render_cases config w session id source isSubscription)
    as [[r Hr] | (illust & r & Hd & Hr & Hc)].
  - pose proof (handle_run _ _ _ _ _ _ _ _ Hr s) as Hrun.
    intros Hne. exfalso. apply Hne.
    destruct isSubscription; [|destruct session as [se|]; [destruct (session_send_ok w)|]].
    + rewrite (events_of_extend _ _ _ _ Hrun). reflexivity.
    + rewrite (events_of_extend _ _ _ _ Hrun). reflexivity.
    + rewrite (events_of_extend _ _ _ _ Hrun). reflexivity.
    + rewrite <- (extend_nil s) in Hrun at 2.
      rewrite (events_of_extend _ _ _ _ Hrun). reflexivity.
  - pose proof (handle_run _ _ _ _ _ _ _ _ Hr s) as Hrun.
    assert (forall pre post,
               downloaded (pre ++ (CallGetArtworkDetail id ::
                 map (fun url => CallDownloadImage url (download_image w url))
                   (imageUrls illust)) ++ post)
               = downloaded pre ++ omap (download_image w) (imageUrls illust)
                   ++ downloaded post) as Hdl.
    { intros pre post. rewrite !downloaded_app.
      rewrite (downloaded_detail id). f_equal. f_equal. apply downloaded_calls. }
    destruct isSubscription; [|destruct session as [se|]; [destruct (session_send_ok w)|]].
    + rewrite (events_of_extend _ _ _ _ Hrun), Hrun.
      rewrite downloaded_detail, downloaded_calls.
      intros Hne. exists illust. rewrite (Hc Hne). auto.
    + rewrite (events_of_extend _ _ _ _ Hrun), Hrun.
      rewrite (Hdl [SessionSend id] [DeleteMessage]).
      change (downloaded [SessionSend id]) with (@nil Buffer).
      change (downloaded [DeleteMessage]) with (@nil Buffer).
      rewrite app_nil_r, app_nil_l.
      intros Hne. exists illust. rewrite (Hc Hne). auto.
    + rewrite (events_of_extend _ _ _ _ Hrun). intros Hne. exfalso. apply Hne. reflexivity.
    + rewrite <- (extend_nil s) in Hrun at 2.
      rewrite (events_of_extend _ _ _ _ Hrun). intros Hne. exfalso. apply Hne. reflexivity.
Qed.

Lemma add_pages_spec config w buffers recipe ps :
  add_pages config w buffers recipe = Val ps ->
  exists new,
    ps = recipe ++ new
    /\ Forall2 (fun buffer page =>
                  sharp_toFile w (jpeg_option config) buffer = Some (page_image page)
                  /\ sharp_metadata w (page_image page)
                     = Some (page_width page, page_height page))
               buffers new.
Proof.
  revert recipe. induction buffers as [|buffer rest IH]; intros recipe; simpl.
  - intros [= <-]. exists []. rewrite app_nil_r. split; [reflexivity|constructor].
  - destruct (sharp_toFile w (jpeg_option config) buffer) as [tempImage|] eqn:Hfile;
      [|discriminate].
    destruct (sharp_metadata w tempImage) as [[width height]|] eqn:Hmeta; [|discriminate].
    intros Hrest. destruct (IH _ Hrest) as (new & -> & Hnew).
    eexists (_ :: new). rewrite <- app_assoc. split; [reflexivity|].
    constructor; [|exact Hnew]. simpl. auto.
Qed.

Lemma add_pages_total config w buffers recipe :
  Forall (fun buffer =>
            exists tempImage dims,
              sharp_toFile w (jpeg_option config) buffer = Some tempImage
              /\ sharp_metadata w tempImage = Some dims) buffers ->
  exists ps, add_pages config w buffers recipe = Val ps.
Proof.
  intros Hall. revert recipe.
  induction Hall as [|buffer rest (tempImage & [width height] & Hfile & Hmeta) _ IH];
    intros recipe; simpl.
  - eauto.
  - rewrite Hfile, Hmeta. apply IH.
Qed.

(** C9, as amended.  Whenever a PDF is built, the image placed on each page
    is the file sharp wrote for the buffer at the same position; the
    pipeline has the [.jpeg({ quality })] step with the configured quality
    exactly when compression is enabled, and no option otherwise.  The
    buffer itself is never placed on a page. *)
Theorem pdf_embeds_what_sharp_writes config w illust buffers doc :
  createPdfFile config w illust buffers = Val doc ->
  Forall2 (fun buffer page =>
             sharp_toFile w (if enableCompression config
                             then Some (compressionQuality config) else None) buffer
             = Some (page_image page))
          buffers (pages doc).
Proof.
  unfold createPdfFile. destruct (safeTitle illust) as [safe|e]; [|discriminate].
  destruct (add_pages config w buffers []) as [ps|e] eqn:Hps; [|discriminate].
  destruct (add_pages_spec _ _ _ _ _ Hps) as (new & -> & Hnew).
  intros [= <-]. simpl in *.
  assert (pages (if truthy_opt (pdfPassword config)
                 then {| pages := new; userPassword := pdfPassword config;
                         ownerPassword := pdfPassword config |}
                 else {| pages := new; userPassword := None; ownerPassword := None |})
          = new) as -> by (destruct (truthy_opt _); reflexivity).
  eapply Forall2_impl; [exact Hnew|]. simpl. intros buffer page [H _]. exact H.
Qed.

Lemma pdf_embeds_what_sharp_writes_witness :
  Forall2 (fun buffer page =>
             Examples.sharp_encodes None buffer = Some (page_image page))
          [Examples.png]
          [{| page_width := 640; page_height := 480;
              page_image := Examples.jpeg_of Examples.png |}].
Proof.
  exact (pdf_embeds_what_sharp_writes
           (Examples.config_with ActSend 3 1 false [])
           (Examples.world_with (fun _ => None) Examples.no_listing
              Examples.sharp_encodes [])
           (Examples.artwork 7 "title" 0 [])
           [Examples.png]
           {| pages := [{| page_width := 640; page_height := 480;
                           page_image := Examples.jpeg_of Examples.png |}];
              userPassword := None; ownerPassword := None |}
           eq_refl).
Defined.

(** C9 as stated fails: with compression disabled the buffer still goes
    through sharp to a [.jpg] file, and where sharp encodes the image anew
    the bytes on the page are those of that file, not the downloaded ones. *)
Lemma pdf_without_compression_embeds_sharp_file :
  let config := Examples.config_with ActSend 3 1 false [] in
  let w := Examples.world_with (fun _ => None) Examples.no_listing
             Examples.sharp_encodes [] in
  enableCompression config = false
  /\ (map page_image <$>
        (match createPdfFile config w (Examples.artwork 7 "title" 0 []) [Examples.png] with
         | Val doc => Some (pages doc)
         | Exc _ => None
         end))
     = Some [Examples.jpeg_of Examples.png]
  /\ Examples.jpeg_of Examples.png <> Examples.png.
Proof. repeat split. discriminate. Qed.

Lemma safeTitle_nonempty illust :
  title illust <> "" -> safeTitle illust = Val (replace_unsafe (title illust)).
Proof.
  intros Hne. unfold safeTitle.
  destruct (String.eqb_spec (title illust) ""); [contradiction|reflexivity].
Qed.

Lemma pages_of_password (b : bool) ps pw :
  pages (if b then {| pages := ps; userPassword := pw; ownerPassword := pw |}
         else {| pages := ps; userPassword := None; ownerPassword := None |}) = ps.
Proof. destruct b; reflexivity. Qed.

(** C8, as amended.  Let a request have downloaded N images, N at least the
    positive PDF threshold, for an artwork with a title, and let sharp
    write each image to its file keeping its pixel dimensions.  Then the
    output is the text followed by one PDF file of exactly N pages, and the
    page sizes, read in page order, are the pixel dimensions of the
    downloaded images, read in download order. *)
Theorem pdf_has_a_page_per_image config w session id source isSubscription s illust buffers :
  let run := handlePixivRequest config w session id source isSubscription in
  downloaded (events_of run s) = buffers ->
  0 < pdfThreshold config <= Z.of_nat (length buffers) ->
  artwork_detail w id = Some illust ->
  title illust <> "" ->
  Forall (fun buffer =>
            exists tempImage,
              sharp_toFile w (jpeg_option config) buffer = Some tempImage
              /\ is_Some (sharp_metadata w buffer)
              /\ sharp_metadata w tempImage = sharp_metadata w buffer) buffers ->
  exists doc,
    fst (run s) =
      Val (OElements [EP (textInfo config illust id source isSubscription);
                      EFile (pdfSendMode config) doc
                        (replace_unsafe (title illust) +:+ ".pdf")])
    /\ length (pages doc) = length buffers
    /\ map (fun page => Some (page_width page, page_height page)) (pages doc)
       = map (sharp_metadata w) buffers.
Proof.
  intros run Hdl [Hpos Hle] Hdetail Htitle Hsharp.
  assert (downloaded (events_of run s) <> []) as Hne.
  { rewrite Hdl. destruct buffers; [simpl in Hle; lia|discriminate]. }
  destruct (handle_downloaded config w session id source isSubscription s Hne)
    as (illust' & Hdetail' & Hbufs & Hout).
  fold run in Hbufs, Hout. rewrite Hdetail in Hdetail'. injection Hdetail' as <-.
  rewrite Hdl in Hbufs. rewrite <- Hbufs in Hout. clear Hbufs Hne Hdl.
  destruct (add_pages_total config w buffers []) as [ps Hps].
  { eapply Forall_impl; [exact Hsharp|]. simpl.
    intros buffer (tempImage & Hfile & [dims Hdims] & Hsame).
    exists tempImage, dims. rewrite Hsame. auto. }
  destruct (add_pages_spec _ _ _ _ _ Hps) as (new & -> & Hnew). simpl in Hps.
  unfold compose in Hout. rewrite (safeTitle_nonempty _ Htitle) in Hout.
  assert (shouldCreatePdf config illust (Z.of_nat (length buffers)) = true) as Hpdf.
  { unfold shouldCreatePdf. apply orb_true_iff. right. apply andb_true_iff. split; lia. }
  rewrite Hpdf in Hout. unfold createPdfFile in Hout.
  rewrite (safeTitle_nonempty _ Htitle), Hps in Hout.
  eexists. split; [exact Hout|]. rewrite pages_of_password. simpl.
  split; [symmetry; eapply Forall2_length; exact Hnew|].
  clear Hps Hout Hpdf Hle Hpos. induction Hnew as [|buffer page rest new' [Hfile Hmeta] _ IH]; [reflexivity|].
  apply Forall_cons in Hsharp as [(tempImage & Hfile' & _ & Hsame) Hrest].
  simpl. rewrite (IH Hrest). f_equal.
  rewrite Hfile in Hfile'. injection Hfile' as <-. rewrite <- Hsame. symmetry. exact Hmeta.
Qed.

Lemma pdf_has_a_page_per_image_witness :
  let config := Examples.config_with ActSend 3 1 true [] in
  let illust := Examples.artwork 7 "title" 0 ["a"; "b"] in
  let w := Examples.world_with (Examples.one_artwork illust) Examples.no_listing
             Examples.sharp_encodes [] in
  exists doc,
    fst (handlePixivRequest config w (Some Examples.session) "7" Command false blank) =
      Val (OElements [EP (textInfo config illust "7" Command false);
                      EFile ModeBuffer doc "title.pdf"])
    /\ length (pages doc) = 2%nat
    /\ map (fun page => Some (page_width page, page_height page)) (pages doc)
       = [Some (640, 480); Some (640, 480)].
Proof.
  intros config illust w.
  apply (pdf_has_a_page_per_image config w (Some Examples.session) "7" Command false
           blank illust [Examples.png; Examples.png]).
  - reflexivity.
  - simpl. lia.
  - reflexivity.
  - discriminate.
  - repeat constructor; exists (Examples.jpeg_of Examples.png);
      repeat split; eexists; reflexivity.
Defined.

(** C8 as stated fails: an image that was downloaded but that sharp cannot
    process makes the PDF build throw, and the request answers with the
    error reply instead of a document. *)
Lemma undecodable_image_gives_no_pdf :
  let config := Examples.config_with ActSend 3 1 true [] in
  let illust := Examples.artwork 7 "title" 0 [] in
  let w := Examples.world_with (Examples.one_artwork illust) Examples.no_listing
             Examples.sharp_rejects [] in
  let run := handlePixivRequest config w (Some Examples.session) "7" Command false in
  downloaded (events_of run blank) = [Examples.png]
  /\ 0 < pdfThreshold config <= Z.of_nat (length [Examples.png])
  /\ fst (run blank) = Val (OUnknownError "m1" RenderError).
Proof. repeat split. simpl. lia. Qed.

(** The title fallback: with an empty title the receiver of [replace] is
    the numeric id, the call throws, and the request ends in the handler. *)
Lemma empty_title_request_fails :
  let config := Examples.config_with ActSend 3 1 true [] in
  let illust := Examples.artwork 7 "" 0 [] in
  let w := Examples.world_with (Examples.one_artwork illust) Examples.no_listing
             Examples.sharp_encodes [] in
  fst (handlePixivRequest config w (Some Examples.session) "7" Command false blank)
  = Val (OUnknownError "m1" TypeError)
  /\ fst (handlePixivRequest config w None "7" Middleware true blank) = Val ONull.
Proof. split; reflexivity. Qed.

(** C10, as amended.  Let a request have downloaded N images, N at least
    the positive forward threshold, for an artwork with a title; let the
    platform of the delivery target be qq or onebot, and let PDF mode not
    be selected.  Then the output is one figure element whose children are
    the text followed by the N images in download order. *)
Theorem forward_bundle_when_no_pdf config w session id source isSubscription s illust buffers :
  let run := handlePixivRequest config w session id source isSubscription in
  downloaded (events_of run s) = buffers ->
  0 < forwardThreshold config <= Z.of_nat (length buffers) ->
  forward_capable (if isSubscription then pushBotPlatform config
                   else platform <$> session) = true ->
  shouldCreatePdf config illust (Z.of_nat (length buffers)) = false ->
  artwork_detail w id = Some illust ->
  title illust <> "" ->
  fst (run s) =
    Val (OElement
           (EFigure (EP (textInfo config illust id source isSubscription)
                     :: map (fun buffer => EImage buffer "image/png") buffers))).
Proof.
  intros run Hdl [Hpos Hle] Hplat Hpdf Hdetail Htitle.
  assert (downloaded (events_of run s) <> []) as Hne.
  { rewrite Hdl. destruct buffers; [simpl in Hle; lia|discriminate]. }
  destruct (handle_downloaded config w session id source isSubscription s Hne)
    as (illust' & Hdetail' & Hbufs & Hout).
  fold run in Hbufs, Hout. rewrite Hdetail in Hdetail'. injection Hdetail' as <-.
  rewrite Hdl in Hbufs. rewrite <- Hbufs in Hout.
  unfold compose in Hout. rewrite (safeTitle_nonempty _ Htitle), Hpdf in Hout.
  assert (shouldForward config (Z.of_nat (length buffers))
            (if isSubscription then pushBotPlatform config else platform <$> session)
          = true) as Hfwd.
  { unfold shouldForward. rewrite Hplat.
    rewrite !andb_true_iff. repeat split; lia. }
  rewrite Hfwd in Hout. exact Hout.
Qed.

Lemma forward_bundle_when_no_pdf_witness :
  let config := Examples.config_with ActSend 3 10 true [] in
  let illust := Examples.artwork 7 "title" 0 ["a"; "b"; "c"] in
  let w := Examples.world_with (Examples.one_artwork illust) Examples.no_listing
             Examples.sharp_encodes [] in
  fst (handlePixivRequest config w (Some Examples.session) "7" Command false blank) =
    Val (OElement
           (EFigure [EP (textInfo config illust "7" Command false);
                     EImage Examples.png "image/png"; EImage Examples.png "image/png";
                     EImage Examples.png "image/png"])).
Proof.
  intros config illust w.
  apply (forward_bundle_when_no_pdf config w (Some Examples.session) "7" Command false
           blank illust [Examples.png; Examples.png; Examples.png]).
  - reflexivity.
  - simpl. lia.
  - reflexivity.
  - reflexivity.
  - reflexivity.
  - discriminate.
Defined.

(** C10 as stated fails: with the default thresholds (forward 3, PDF 10) an
    artwork of ten images sent to an onebot target reaches the forward
    threshold, and the output is the text with a PDF file, because PDF mode
    is decided first. *)
Lemma pdf_mode_precedes_forward_bundle :
  let config := Examples.config_with ActSend 3 10 true [] in
  let illust := Examples.artwork 7 "title" 0 Examples.ten_pages in
  let w := Examples.world_with (Examples.one_artwork illust) Examples.no_listing
             Examples.sharp_encodes [] in
  let run := handlePixivRequest config w (Some Examples.session) "7" Command false in
  length (downloaded (events_of run blank)) = 10%nat
  /\ 0 < forwardThreshold config <= 10
  /\ forward_capable (Some (platform Examples.session)) = true
  /\ exists text doc name,
       fst (run blank) = Val (OElements [EP text; EFile ModeBuffer doc name])
       /\ length (pages doc) = 10%nat.
Proof.
  repeat split; try (simpl; lia).
  do 3 eexists. split; reflexivity.
Qed.

(* ===================================================================== *)
(** ** Properties of the subscription tracker                            *)
(* ===================================================================== *)

(** In the subscription path [handlePixivRequest] never throws, and what it
    returns and logs is [content]. *)
Lemma content_run config w id s :
  handlePixivRequest config w None id Middleware true s
  = (Val (fst (content config w id)), extend s (snd (content config w id))).
Proof.
  destruct (emitter_render config w None id Middleware true) as (r & evs & Hr).
  pose proof (handle_run _ _ _ _ _ _ _ _ Hr) as Hrun. simpl in Hrun.
  unfold content. rewrite (Hrun blank), (Hrun s). simpl.
  destruct r; reflexivity.
Qed.

Lemma sends_run w author content channels s :
  for_each channels
    (fun channel => try_catch (bot_sendMessage w author channel content) (fun e => ret tt)) s
  = (Val tt,
     extend s (map (fun channel =>
                      SendMessage author channel content (sendMessage_ok w channel content))
                   channels)).
Proof.
  revert s. induction channels as [|channel rest IH]; intros s; simpl.
  - unfold ret. rewrite extend_nil. reflexivity.
  - unfold bind at 1, try_catch, bot_sendMessage, bind at 1, emit, modify, ret, throw.
    simpl. destruct (sendMessage_ok w channel content); simpl;
      rewrite IH; unfold extend; simpl; rewrite <- app_assoc; reflexivity.
Qed.

Lemma run_eq {A} (r : Res JsError A) d (t t' : list Event) (u u' : nat) :
  t = t' -> u = u' ->
  (r, {| db := d; trace := t; updatesFound := u |})
  = (r, {| db := d; trace := t'; updatesFound := u' |}).
Proof. intros -> ->. reflexivity. Qed.

Ltac norm_state := unfold extend; cbn [db trace updatesFound].

Ltac same_run :=
  unfold extend; cbn [db trace updatesFound];
  apply run_eq; [rewrite <- ?app_assoc, ?app_nil_r; reflexivity | lia].

Lemma bind_run {S E A B} (m : M S E A) (k : A -> M S E B) s :
  bind m k s = match m s with
               | (Val a, s') => k a s'
               | (Exc e, s') => (Exc e, s')
               end.
Proof. reflexivity. Qed.

Lemma try_catch_run {S E A} (m : M S E A) (h : E -> M S E A) s :
  try_catch m h s = match m s with
                    | (Val a, s') => (Val a, s')
                    | (Exc e, s') => h e s'
                    end.
Proof. reflexivity. Qed.

Lemma call_getUserIllusts_run w author s :
  call_getUserIllusts w author s
  = (Val (user_illusts w author), extend s [CallGetUserIllusts author]).
Proof. reflexivity. Qed.

Lemma database_get_run w author s :
  database_get w author s =
  (if database_get_ok w author then Val (db s !! author) else Exc DatabaseError,
   extend s [DbGet author]).
Proof.
  unfold database_get, bind, emit, modify, gets, throw. simpl.
  destruct (database_get_ok w author); reflexivity.
Qed.

Lemma database_upsert_run w author last s :
  database_upsert w author last s =
  (if database_write_ok w author then Val tt else Exc DatabaseError,
   {| db := if database_write_ok w author then <[author := last]> (db s) else db s;
      trace := trace s ++ [DbUpsert author last (database_write_ok w author)];
      updatesFound := updatesFound s |}).
Proof.
  unfold database_upsert, bind, emit, modify, gets, set_db, throw. simpl.
  destruct (database_write_ok w author); reflexivity.
Qed.

Lemma database_create_run w author last s :
  database_create w author last s =
  let ok := database_write_ok w author && bool_decide (db s !! author = None) in
  (if ok then Val tt else Exc DatabaseError,
   {| db := if ok then <[author := last]> (db s) else db s;
      trace := trace s ++ [DbCreate author last ok];
      updatesFound := updatesFound s |}).
Proof.
  unfold database_create, bind, emit, modify, gets, set_db, throw. simpl.
  destruct (database_write_ok w author && bool_decide (db s !! author = None));
    reflexivity.
Qed.

Lemma check_subscription_run config w isManualTrigger sub s :
  check_subscription config w isManualTrigger sub s =
  let '(evs, d, n) := iteration config w isManualTrigger sub (db s) in
  (Val tt, {| db := d; trace := trace s ++ evs; updatesFound := updatesFound s + n |}).
Proof.
  destruct s as [d0 t0 u0].
  unfold check_subscription, iteration, served, latest_id. cbn [db].
  destruct (String.eqb (uid sub) "" || bool_decide (channelIds sub = [])) eqn:Hskip;
    cbn [negb].
  { unfold ret. same_run. }
  rewrite try_catch_run, bind_run, call_getUserIllusts_run. norm_state.
  destruct (user_illusts w (uid sub)) as [[|latestIllust rest]|]; cbv beta iota;
    try (unfold ret; same_run).
  rewrite bind_run, database_get_run. norm_state.
  destruct (database_get_ok w (uid sub)); cbn [negb]; [|unfold ret; same_run].
  set (latestId := pretty (illust_id latestIllust)).
  set (new := isNew latestId (d0 !! uid sub)).
  rewrite bind_run.
  destruct (new || isManualTrigger && negb (String.eqb latestId "")) eqn:Hpush.
  - rewrite bind_run. unfold gets at 1. cbv beta iota.
    rewrite bind_run. unfold set_updatesFound at 1, modify at 1. cbv beta iota.
    rewrite bind_run, content_run. norm_state.
    destruct (content config w latestId) as [out evs]. cbn [fst snd]. cbv beta iota.
    destruct (falsy_output out); cbv beta iota.
    + unfold ret. same_run.
    + rewrite bind_run, sends_run. norm_state. unfold ret at 1. cbv beta iota.
      destruct new; cbv beta iota.
      * rewrite database_upsert_run. norm_state.
        destruct (database_write_ok w (uid sub)); same_run.
      * unfold ret. same_run.
  - unfold ret at 1. cbv beta iota.
    assert (new = false) as -> by (destruct new; [discriminate|reflexivity]).
    unfold ret. same_run.
Qed.

Lemma loop_run config w isManualTrigger subs s :
  for_each subs (check_subscription config w isManualTrigger) s =
  let '(evs, d, n) := iterations config w isManualTrigger subs (db s) in
  (Val tt, {| db := d; trace := trace s ++ evs; updatesFound := updatesFound s + n |}).
Proof.
  revert s. induction subs as [|sub rest IH]; intros s; simpl.
  - unfold ret. destruct s; simpl. rewrite app_nil_r, Nat.add_0_r. reflexivity.
  - unfold bind. rewrite check_subscription_run.
    destruct (iteration config w isManualTrigger sub (db s)) as [[evs d] n].
    rewrite IH. simpl.
    destruct (iterations config w isManualTrigger rest d) as [[evs' d'] n'].
    same_run.
Qed.

Lemma check_state config w isManualTrigger s :
  exists r u,
    checkAndPushUpdates config w isManualTrigger s =
    (r, {| db := if enableSubscription config && bool_decide (is_Some (find_bot config w))
                 then snd (fst (iterations config w isManualTrigger
                                  (subscriptions config) (db s)))
                 else db s;
           trace := trace s ++
                    (if enableSubscription config
                        && bool_decide (is_Some (find_bot config w))
                     then fst (fst (iterations config w isManualTrigger
                                      (subscriptions config) (db s)))
                     else []);
           updatesFound := u |}).
Proof.
  destruct s as [d0 t0 u0]. unfold checkAndPushUpdates. cbn [db trace].
  destruct (enableSubscription config); cbn [negb andb].
  2: { do 2 eexists. unfold ret. rewrite app_nil_r. reflexivity. }
  destruct (find_bot config w) as [bot|]; cbn [andb].
  2: { rewrite bool_decide_false by (intros [? ?]; discriminate).
       do 2 eexists. unfold ret. rewrite app_nil_r. reflexivity. }
  rewrite bool_decide_true by eauto.
  rewrite bind_run. unfold set_updatesFound at 1, modify at 1. cbv beta iota.
  rewrite bind_run, loop_run. cbn [db trace updatesFound].
  destruct (iterations config w isManualTrigger (subscriptions config) d0)
    as [[evs d] n].
  rewrite bind_run. unfold gets, ret. cbn [snd fst].
  do 2 eexists. reflexivity.
Qed.

(** What a run of [checkAndPushUpdates] logs and the table it leaves. *)
Lemma check_run config w isManualTrigger s :
  events_of (checkAndPushUpdates config w isManualTrigger) s =
    (if enableSubscription config && bool_decide (is_Some (find_bot config w))
     then fst (fst (iterations config w isManualTrigger (subscriptions config) (db s)))
     else [])
  /\ db_after (checkAndPushUpdates config w isManualTrigger) s =
    (if enableSubscription config && bool_decide (is_Some (find_bot config w))
     then snd (fst (iterations config w isManualTrigger (subscriptions config) (db s)))
     else db s).
Proof.
  unfold events_of, db_after.
  destruct (check_state config w isManualTrigger s) as (r & u & ->).
  cbn [snd db trace]. rewrite drop_app_length. auto.
Qed.

Lemma pretty_N_go_nonempty (x : N) (acc : string) :
  acc <> "" -> pretty_N_go x acc <> "".
Proof.
  revert acc. induction (N.lt_wf_0 x) as [x _ IH]; intros acc Hacc.
  destruct (decide (x = 0%N)) as [->|Hx].
  - rewrite pretty_N_go_0. exact Hacc.
  - rewrite pretty_N_go_step by lia. apply IH; [apply N.div_lt; lia | discriminate].
Qed.

(** [id.toString()] of a numeric id is never the empty string. *)
Lemma pretty_nonempty (n : N) : pretty n <> "".
Proof.
  unfold pretty, pretty_N. destruct (decide (n = 0%N)); [discriminate|].
  rewrite pretty_N_go_step by lia. apply pretty_N_go_nonempty. discriminate.
Qed.

Lemma latest_id_nonempty w author latestId :
  latest_id w author = Some latestId -> latestId <> "".
Proof.
  unfold latest_id. destruct (user_illusts w author) as [[|i rest]|]; try discriminate.
  intros [= <-]. apply pretty_nonempty.
Qed.

Lemma isNew_same latestId : latestId <> "" -> isNew latestId (Some latestId) = false.
Proof.
  intros Hne. unfold isNew, truthy_opt.
  destruct (String.eqb_spec latestId ""); [contradiction|].
  rewrite bool_decide_true by reflexivity. reflexivity.
Qed.

Lemma isNew_other latestId record : record <> Some latestId -> isNew latestId record = true.
Proof.
  intros Hne. unfold isNew.
  rewrite (bool_decide_false (Some latestId = record)) by congruence.
  apply orb_true_r.
Qed.

Lemma isNew_true latestId record :
  latestId <> "" -> isNew latestId record = true -> record <> Some latestId.
Proof.
  intros Hne Hnew ->. rewrite isNew_same in Hnew by assumption. discriminate.
Qed.

Lemma content_gallery_calls config w id :
  forallb gallery_call (snd (content config w id)) = true.
Proof.
  unfold content. cbn [snd].
  destruct (render_cases config w None id Middleware true)
    as [[r Hr] | (illust & r & _ & Hr & _)];
    rewrite (handle_run _ _ _ _ _ _ _ _ Hr blank); cbn [snd trace extend blank app].
  - reflexivity.
  - cbn [forallb gallery_call andb]. clear Hr.
    induction (imageUrls illust) as [|url urls IH]; [reflexivity|exact IH].
Qed.

Lemma filter_gallery_calls (p : Event -> bool) evs :
  (forall ev, gallery_call ev = true -> p ev = false) ->
  forallb gallery_call evs = true -> List.filter p evs = [].
Proof.
  intros Hp. induction evs as [|ev evs IH]; [reflexivity|]. simpl.
  intros [Hev Hevs]%andb_true_iff. rewrite (Hp ev Hev). auto.
Qed.

Lemma write_for_gallery author ev : gallery_call ev = true -> write_for author ev = false.
Proof. destruct ev; simpl; congruence. Qed.

Lemma delivery_for_gallery author ev :
  gallery_call ev = true -> delivery_for author ev = false.
Proof. destruct ev; simpl; congruence. Qed.

Lemma filter_sends (p : Event -> bool) (mk : string -> Event) channels :
  (forall channel, p (mk channel) = false) -> List.filter p (map mk channels) = [].
Proof.
  intros Hp. induction channels as [|c cs IH]; [reflexivity|].
  simpl. rewrite Hp. exact IH.
Qed.

Lemma eqb_ne (a b : string) : a <> b -> String.eqb a b = false.
Proof. intros H. destruct (String.eqb_spec a b); [contradiction|reflexivity]. Qed.

Section Iteration.

Variable config : Config.
Variable w : World.
Variable isManualTrigger : bool.

Lemma content_no_write author id :
  List.filter (write_for author) (snd (content config w id)) = [].
Proof.
  apply filter_gallery_calls; [apply write_for_gallery | apply content_gallery_calls].
Qed.

Lemma content_no_delivery author id :
  List.filter (delivery_for author) (snd (content config w id)) = [].
Proof.
  apply filter_gallery_calls; [apply delivery_for_gallery | apply content_gallery_calls].
Qed.

(** An iteration for another author leaves the record of [author] alone
    and logs nothing attributed to [author]. *)
Lemma iteration_other sub d author :
  uid sub <> author ->
  let '(evs, d', _) := iteration config w isManualTrigger sub d in
  List.filter (write_for author) evs = []
  /\ List.filter (delivery_for author) evs = []
  /\ d' !! author = d !! author.
Proof.
  intros Hne. pose proof (eqb_ne _ _ Hne) as Hneb.
  unfold iteration.
  destruct (negb (served sub)); [auto|].
  destruct (latest_id w (uid sub)) as [latestId|]; [|auto].
  destruct (negb (database_get_ok w (uid sub))); [auto|].
  destruct (isNew latestId (d !! uid sub) || _); [|auto].
  pose proof (content_no_write author latestId) as Hcw.
  pose proof (content_no_delivery author latestId) as Hcd.
  destruct (content config w latestId) as [out evs]. cbn [snd] in Hcw, Hcd.
  destruct (falsy_output out).
  { rewrite !List.filter_app, Hcw, Hcd. auto. }
  assert (forall p : Event -> bool,
             (forall channel ok, p (SendMessage (uid sub) channel (payload out) ok) = false) ->
             List.filter p
               (map (fun channel =>
                       SendMessage (uid sub) channel (payload out)
                         (sendMessage_ok w channel (payload out))) (channelIds sub)) = [])
    as Hsends.
  { intros p Hp. apply filter_sends. intros channel. apply Hp. }
  destruct (isNew latestId (d !! uid sub)).
  - rewrite !List.filter_app, Hcw, Hcd, !Hsends by (intros; simpl; auto).
    simpl. rewrite Hneb. simpl.
    destruct (database_write_ok w (uid sub)); [rewrite lookup_insert_ne by exact Hne|]; auto.
  - rewrite !List.filter_app, Hcw, Hcd, !Hsends by (intros; simpl; auto). auto.
Qed.

(** An iteration writes the record of an author at most once, and only the
    id at the head of that author's listing, when that id is new. *)
Lemma iteration_writes sub d author :
  let '(evs, d', _) := iteration config w isManualTrigger sub d in
  (List.filter (write_for author) evs = [] /\ d' !! author = d !! author)
  \/ (exists latestId,
        latest_id w author = Some latestId
        /\ isNew latestId (d !! author) = true
        /\ List.filter (write_for author) evs
           = [DbUpsert author latestId (database_write_ok w author)]
        /\ d' !! author
           = if database_write_ok w author then Some latestId else d !! author).
Proof.
  destruct (decide (uid sub = author)) as [<-|Hne].
  2: { pose proof (iteration_other sub d author Hne) as H.
       destruct (iteration config w isManualTrigger sub d) as [[evs d'] n].
       left. tauto. }
  unfold iteration.
  destruct (negb (served sub)); [auto|].
  destruct (latest_id w (uid sub)) as [latestId|] eqn:Hlatest; [|auto].
  destruct (negb (database_get_ok w (uid sub))); [auto|].
  destruct (isNew latestId (d !! uid sub) || _); [|auto].
  pose proof (content_no_write (uid sub) latestId) as Hcw.
  destruct (content config w latestId) as [out evs]. cbn [snd] in Hcw.
  destruct (falsy_output out).
  { left. rewrite !List.filter_app, Hcw. auto. }
  destruct (isNew latestId (d !! uid sub)) eqn:Hnew.
  - right. exists latestId. repeat split; [exact Hnew| |].
    + rewrite !List.filter_app, Hcw, filter_sends by reflexivity.
      simpl. rewrite String.eqb_refl. reflexivity.
    + destruct (database_write_ok w (uid sub)); [apply lookup_insert_eq|reflexivity].
  - left. rewrite !List.filter_app, Hcw, filter_sends by reflexivity. auto.
Qed.

(** An iteration that is not manually triggered and finds the stored id at
    the head of the listing delivers nothing. *)
Lemma iteration_deliveries sub d author latestId :
  isManualTrigger = false ->
  latest_id w author = Some latestId ->
  d !! author = Some latestId ->
  let '(evs, _, _) := iteration config w isManualTrigger sub d in
  List.filter (delivery_for author) evs = [].
Proof.
  intros Hmanual Hlatest Hseen.
  destruct (decide (uid sub = author)) as [<-|Hne].
  2: { pose proof (iteration_other sub d author Hne) as H.
       destruct (iteration config w isManualTrigger sub d) as [[evs d'] n]. tauto. }
  unfold iteration.
  destruct (negb (served sub)); [auto|]. rewrite Hlatest.
  destruct (negb (database_get_ok w (uid sub))); [auto|].
  rewrite Hseen, isNew_same, Hmanual by (eapply latest_id_nonempty; eassumption).
  reflexivity.
Qed.

(** An iteration that pushes: the subscription is served, a latest id
    exists, the record can be read, the id is new or the trigger is manual,
    and there is content.  Every channel is sent that content, and the id
    is written exactly when it is new. *)
Lemma iteration_pushes sub d latestId :
  served sub = true ->
  latest_id w (uid sub) = Some latestId ->
  database_get_ok w (uid sub) = true ->
  isNew latestId (d !! uid sub) || isManualTrigger = true ->
  falsy_output (fst (content config w latestId)) = false ->
  let out := fst (content config w latestId) in
  let '(evs, d', _) := iteration config w isManualTrigger sub d in
  List.filter (delivery_for (uid sub)) evs
  = map (fun channel =>
           SendMessage (uid sub) channel (payload out)
             (sendMessage_ok w channel (payload out))) (channelIds sub)
  /\ (isNew latestId (d !! uid sub) = true ->
      List.filter (write_for (uid sub)) evs
      = [DbUpsert (uid sub) latestId (database_write_ok w (uid sub))]
      /\ d' !! uid sub
         = if database_write_ok w (uid sub) then Some latestId else d !! uid sub).
Proof.
  intros Hserved Hlatest Hget Hpush Hcontent out. subst out.
  unfold iteration. rewrite Hserved, Hlatest, Hget. cbn [negb].
  assert (isNew latestId (d !! uid sub)
          || isManualTrigger && negb (String.eqb latestId "") = true) as ->.
  { rewrite (eqb_ne latestId "") by (eapply latest_id_nonempty; eassumption).
    cbn [negb]. rewrite andb_true_r. exact Hpush. }
  pose proof (content_no_write (uid sub) latestId) as Hcw.
  pose proof (content_no_delivery (uid sub) latestId) as Hcd.
  destruct (content config w latestId) as [out evs]. cbn [fst snd] in *.
  rewrite Hcontent.
  assert (List.filter (delivery_for (uid sub))
            (map (fun channel =>
                    SendMessage (uid sub) channel (payload out)
                      (sendMessage_ok w channel (payload out))) (channelIds sub))
          = map (fun channel =>
                   SendMessage (uid sub) channel (payload out)
                     (sendMessage_ok w channel (payload out))) (channelIds sub)) as Hall.
  { induction (channelIds sub) as [|c cs IH]; [reflexivity|].
    simpl. rewrite String.eqb_refl, IH. reflexivity. }
  destruct (isNew latestId (d !! uid sub)).
  - rewrite !List.filter_app, Hcw, Hcd, Hall, filter_sends by reflexivity.
    simpl. rewrite String.eqb_refl, app_nil_r. split; [reflexivity|]. intros _.
    split; [reflexivity|].
    destruct (database_write_ok w (uid sub)); [apply lookup_insert_eq|reflexivity].
  - rewrite !List.filter_app, Hcd, Hall. simpl. split; [reflexivity|discriminate].
Qed.

End Iteration.

Section Loop.

Variable config : Config.
Variable w : World.
Variable isManualTrigger : bool.

(** Once the stored id is the one at the head of the listing, the rest of
    the loop does not write the record, and pushes only when triggered
    manually. *)
Lemma iterations_seen subs d author latestId :
  latest_id w author = Some latestId ->
  d !! author = Some latestId ->
  let '(evs, d', _) := iterations config w isManualTrigger subs d in
  List.filter (write_for author) evs = []
  /\ d' !! author = Some latestId
  /\ (isManualTrigger = false -> List.filter (delivery_for author) evs = []).
Proof.
  intros Hlatest. revert d. induction subs as [|sub rest IH]; intros d Hseen; simpl.
  { auto. }
  pose proof (iteration_writes config w isManualTrigger sub d author) as Hw.
  pose proof (iteration_deliveries config w isManualTrigger sub d author latestId) as Hd.
  destruct (iteration config w isManualTrigger sub d) as [[evs d1] n].
  destruct Hw as [[Hnone Hsame] | (l & Hl & Hnew & _)].
  2: { rewrite Hlatest in Hl. injection Hl as <-.
       rewrite Hseen, isNew_same in Hnew by (eapply latest_id_nonempty; eassumption).
       discriminate. }
  rewrite Hseen in Hsame. specialize (IH d1 Hsame).
  destruct (iterations config w isManualTrigger rest d1) as [[evs' d2] n'].
  destruct IH as (Hw' & Hd2 & Hdel).
  rewrite !List.filter_app, Hnone, Hw'. repeat split; [exact Hd2|].
  intros Hm. rewrite (Hd Hm Hlatest Hseen), (Hdel Hm). reflexivity.
Qed.

(** Over a whole loop the record of an author is written at most once; a
    write stores the id at the head of the author's listing, which differs
    from the stored one. *)
Lemma iterations_writes subs d author :
  let '(evs, d', _) := iterations config w isManualTrigger subs d in
  (d' !! author = d !! author
   \/ exists latestId,
        latest_id w author = Some latestId
        /\ d !! author <> Some latestId /\ d' !! author = Some latestId)
  /\ (database_write_ok w author = true ->
      (List.filter (write_for author) evs = [] /\ d' !! author = d !! author)
      \/ exists latestId,
           latest_id w author = Some latestId
           /\ List.filter (write_for author) evs = [DbUpsert author latestId true]
           /\ d' !! author = Some latestId).
Proof.
  revert d. induction subs as [|sub rest IH]; intros d; simpl.
  { split; [|intros _]; left; auto. }
  pose proof (iteration_writes config w isManualTrigger sub d author) as Hw.
  destruct (iteration config w isManualTrigger sub d) as [[evs d1] n].
  destruct Hw as [[Hnone Hsame] | (l & Hl & Hnew & Hone & Hd1)].
  - specialize (IH d1).
    destruct (iterations config w isManualTrigger rest d1) as [[evs' d2] n'].
    rewrite Hsame in IH. destruct IH as [IHdb IHev]. split; [exact IHdb|].
    intros Hok. rewrite List.filter_app, Hnone. exact (IHev Hok).
  - pose proof (isNew_true l _ (latest_id_nonempty _ _ _ Hl) Hnew) as Hdiff.
    destruct (database_write_ok w author) eqn:Hok.
    + pose proof (iterations_seen rest d1 author l Hl Hd1) as Hrest.
      destruct (iterations config w isManualTrigger rest d1) as [[evs' d2] n'].
      destruct Hrest as (Hw' & Hd2 & _).
      split; [right; eauto|]. intros _. right. exists l.
      rewrite List.filter_app, Hone, Hw'. auto.
    + specialize (IH d1).
      destruct (iterations config w isManualTrigger rest d1) as [[evs' d2] n'].
      rewrite Hd1 in IH. destruct IH as [IHdb _]. split; [exact IHdb|discriminate].
Qed.

(** A served subscription whose latest id is new gets exactly one write, of
    that id, when the store works and there is content. *)
Lemma iterations_new subs d sub latestId :
  In sub subs -> served sub = true ->
  latest_id w (uid sub) = Some latestId ->
  d !! uid sub <> Some latestId ->
  database_get_ok w (uid sub) = true ->
  database_write_ok w (uid sub) = true ->
  falsy_output (fst (content config w latestId)) = false ->
  let '(evs, d', _) := iterations config w isManualTrigger subs d in
  List.filter (write_for (uid sub)) evs = [DbUpsert (uid sub) latestId true]
  /\ d' !! uid sub = Some latestId.
Proof.
  intros Hin Hserved Hlatest Hnew Hget Hput Hcontent. revert d Hnew Hin.
  induction subs as [|sub0 rest IH]; intros d Hnew Hin; [destruct Hin|]. simpl.
  destruct (decide (uid sub0 = uid sub /\ served sub0 = true)) as [[Huid Hs0]|Hnot].
  - pose proof (iteration_pushes config w isManualTrigger sub0 d latestId Hs0) as Hp.
    rewrite Huid in Hp.
    specialize (Hp Hlatest Hget).
    rewrite (isNew_other _ _ Hnew) in Hp. specialize (Hp eq_refl Hcontent).
    cbv zeta in Hp.
    destruct (iteration config w isManualTrigger sub0 d) as [[evs d1] n].
    destruct Hp as [_ Hp]. destruct (Hp eq_refl) as [Hone Hd1]. rewrite Hput in Hone, Hd1.
    pose proof (iterations_seen rest d1 (uid sub) latestId Hlatest Hd1) as Hrest.
    destruct (iterations config w isManualTrigger rest d1) as [[evs' d2] n'].
    destruct Hrest as (Hw' & Hd2 & _).
    rewrite List.filter_app, Hone, Hw'. auto.
  - assert (In sub rest) as Hin'.
    { destruct Hin as [->|Hin]; [|exact Hin]. exfalso. apply Hnot. auto. }
    assert (let '(evs, d1, _) := iteration config w isManualTrigger sub0 d in
            List.filter (write_for (uid sub)) evs = [] /\ d1 !! uid sub = d !! uid sub)
      as Hhead.
    { destruct (decide (uid sub0 = uid sub)) as [Huid|Hne].
      - assert (served sub0 = false) as Hs0.
        { destruct (served sub0); [exfalso; apply Hnot; auto|reflexivity]. }
        unfold iteration. rewrite Hs0. simpl. auto.
      - pose proof (iteration_other config w isManualTrigger sub0 d (uid sub) Hne) as H.
        destruct (iteration config w isManualTrigger sub0 d) as [[evs d1] n]. tauto. }
    destruct (iteration config w isManualTrigger sub0 d) as [[evs d1] n].
    destruct Hhead as [Hnone Hsame].
    assert (d1 !! uid sub <> Some latestId) as Hnew1 by (rewrite Hsame; exact Hnew).
    specialize (IH d1 Hnew1 Hin').
    destruct (iterations config w isManualTrigger rest d1) as [[evs' d2] n'].
    rewrite List.filter_app, Hnone. exact IH.
Qed.

End Loop.

(** A manual run sends the content of the latest artwork to every channel
    of a served subscription, whatever the stored id. *)
Lemma iterations_manual_push config w subs d sub latestId channel :
  In sub subs -> served sub = true ->
  latest_id w (uid sub) = Some latestId ->
  database_get_ok w (uid sub) = true ->
  falsy_output (fst (content config w latestId)) = false ->
  In channel (channelIds sub) ->
  let message := payload (fst (content config w latestId)) in
  In (SendMessage (uid sub) channel message (sendMessage_ok w channel message))
     (fst (fst (iterations config w true subs d))).
Proof.
  intros Hin Hserved Hlatest Hget Hcontent Hch message. revert d.
  induction subs as [|sub0 rest IH]; intros d; [destruct Hin|]. simpl.
  destruct Hin as [->|Hin].
  - pose proof (iteration_pushes config w true sub d latestId Hserved Hlatest Hget) as Hp.
    rewrite orb_true_r in Hp. specialize (Hp eq_refl Hcontent). cbv zeta in Hp.
    destruct (iteration config w true sub d) as [[evs d1] n].
    destruct (iterations config w true rest d1) as [[evs' d2] n'].
    destruct Hp as [Hsends _]. cbn [fst]. apply in_or_app. left.
    assert (In (SendMessage (uid sub) channel message
                  (sendMessage_ok w channel message))
               (List.filter (delivery_for (uid sub)) evs)) as Hin.
    { rewrite Hsends. apply (in_map (fun c => SendMessage (uid sub) c message
                                                (sendMessage_ok w c message))).
      exact Hch. }
    apply List.filter_In in Hin. tauto.
  - specialize (IH Hin).
    destruct (iteration config w true sub0 d) as [[evs d1] n].
    specialize (IH d1).
    destruct (iterations config w true rest d1) as [[evs' d2] n'].
    cbn [fst] in *. apply in_or_app. right. exact IH.
Qed.


(** C2.  In a cycle that is not manually triggered, an author whose latest
    id, the one at the head of the listing, is the stored last-seen id gets
    no delivery call and no write, and the record stays as it is. *)
Theorem seen_id_is_neither_pushed_nor_written config w s author latestId :
  latest_id w author = Some latestId ->
  db s !! author = Some latestId ->
  let cycle := checkAndPushUpdates config w false in
  List.filter (delivery_for author) (events_of cycle s) = []
  /\ List.filter (write_for author) (events_of cycle s) = []
  /\ db_after cycle s !! author = Some latestId.
Proof.
  intros Hlatest Hseen cycle. subst cycle.
  destruct (check_run config w false s) as [-> ->].
  destruct (enableSubscription config && bool_decide (is_Some (find_bot config w))); [|auto].
  pose proof (iterations_seen config w false (subscriptions config) (db s) author latestId
                Hlatest Hseen) as H.
  destruct (iterations config w false (subscriptions config) (db s)) as [[evs d] n].
  cbn [fst snd]. destruct H as (Hw & Hd & Hdel). auto.
Qed.

Lemma seen_id_is_neither_pushed_nor_written_witness :
  let config := Examples.tracker_config ActSend in
  let w := Examples.tracker_world Examples.art100 [Examples.online_bot] in
  let s := Examples.state_of {["7" := "100"]} in
  let cycle := checkAndPushUpdates config w false in
  List.filter (delivery_for "7") (events_of cycle s) = []
  /\ List.filter (write_for "7") (events_of cycle s) = []
  /\ db_after cycle s !! "7" = Some "100".
Proof.
  intros config w s.
  apply (seen_id_is_neither_pushed_nor_written config w s "7" "100").
  - reflexivity.
  - reflexivity.
Defined.

(** C1, as amended.  In a cycle that runs (subscriptions enabled, the
    configured bot online), for a served subscription whose latest id
    differs from the stored one or has no record, with a store that answers
    and content that was generated: the log holds exactly one write for the
    author, the upsert of the latest id, and the record is that id
    afterwards.  Nothing is assumed about the deliveries. *)
Theorem new_id_is_written_once config w isManualTrigger s sub latestId :
  enableSubscription config = true ->
  is_Some (find_bot config w) ->
  In sub (subscriptions config) ->
  served sub = true ->
  latest_id w (uid sub) = Some latestId ->
  db s !! uid sub <> Some latestId ->
  database_get_ok w (uid sub) = true ->
  database_write_ok w (uid sub) = true ->
  falsy_output (fst (content config w latestId)) = false ->
  let cycle := checkAndPushUpdates config w isManualTrigger in
  List.filter (write_for (uid sub)) (events_of cycle s)
  = [DbUpsert (uid sub) latestId true]
  /\ db_after cycle s !! uid sub = Some latestId.
Proof.
  intros Hon Hbot Hin Hserved Hlatest Hnew Hget Hput Hcontent cycle. subst cycle.
  destruct (check_run config w isManualTrigger s) as [-> ->].
  rewrite Hon, bool_decide_true by exact Hbot. cbn [andb].
  pose proof (iterations_new config w isManualTrigger (subscriptions config) (db s) sub
                latestId Hin Hserved Hlatest Hnew Hget Hput Hcontent) as H.
  destruct (iterations config w isManualTrigger (subscriptions config) (db s))
    as [[evs d] n].
  exact H.
Qed.

Lemma new_id_is_written_once_witness :
  let config := Examples.tracker_config ActSend in
  let w := Examples.tracker_world Examples.art100 [Examples.online_bot] in
  let cycle := checkAndPushUpdates config w false in
  List.filter (write_for "7") (events_of cycle blank) = [DbUpsert "7" "100" true]
  /\ db_after cycle blank !! "7" = Some "100".
Proof.
  intros config w.
  apply (new_id_is_written_once config w false blank Examples.sub7 "100").
  - reflexivity.
  - eexists. reflexivity.
  - left. reflexivity.
  - reflexivity.
  - reflexivity.
  - discriminate.
  - reflexivity.
  - reflexivity.
  - reflexivity.
Defined.

(** C1 as stated fails: when the configured bot is not online the cycle
    returns at once; the latest id of author 7 differs from the record
    (there is none) and nothing is written. *)
Lemma offline_bot_cycle_writes_nothing :
  let config := Examples.tracker_config ActSend in
  let w := Examples.tracker_world Examples.art100 [] in
  let cycle := checkAndPushUpdates config w false in
  In Examples.sub7 (subscriptions config)
  /\ latest_id w "7" = Some "100"
  /\ db blank !! "7" = None
  /\ events_of cycle blank = []
  /\ count (write_for "7") (events_of cycle blank) = 0%nat
  /\ db_after cycle blank !! "7" = None.
Proof. repeat split. left. reflexivity. Qed.

(** The [continue] after a failed content generation: an R-18 latest
    artwork under the block policy is counted as an update, nothing is
    sent, and the id is not written, so the next cycle finds it new again. *)
Lemma skipped_content_is_not_written :
  let config := Examples.tracker_config ActBlock in
  let w := Examples.tracker_world Examples.art100_r18 [Examples.online_bot] in
  let cycle := checkAndPushUpdates config w false in
  events_of cycle blank = [CallGetUserIllusts "7"; DbGet "7"; CallGetArtworkDetail "100"]
  /\ updatesFound (snd (cycle blank)) = 1%nat
  /\ db_after cycle blank !! "7" = None
  /\ events_of cycle (snd (cycle blank))
     = [CallGetUserIllusts "7"; DbGet "7"; CallGetArtworkDetail "100"].
Proof. repeat split. Qed.













Lemma count_app p evs evs' : count p (evs ++ evs') = (count p evs + count p evs')%nat.
Proof. unfold count. rewrite List.filter_app, length_app. reflexivity. Qed.

(** C7, as amended.  Two manual runs in succession against an unchanged
    world, in which the cycle runs, the subscription is served, its listing
    has a latest id, the store answers and content is generated: each run
    sends every channel of the subscription the same message, the content
    of the latest artwork, and the two runs together write the record of
    the author at most once. *)
Theorem manual_trigger_twice config w s sub latestId :
  enableSubscription config = true ->
  is_Some (find_bot config w) ->
  In sub (subscriptions config) ->
  served sub = true ->
  latest_id w (uid sub) = Some latestId ->
  database_get_ok w (uid sub) = true ->
  database_write_ok w (uid sub) = true ->
  falsy_output (fst (content config w latestId)) = false ->
  let run := checkAndPushUpdates config w true in
  let first := events_of run s in
  let second := events_of run (snd (run s)) in
  let message := payload (fst (content config w latestId)) in
  (forall channel,
      In channel (channelIds sub) ->
      In (SendMessage (uid sub) channel message (sendMessage_ok w channel message)) first
      /\ In (SendMessage (uid sub) channel message (sendMessage_ok w channel message)) second)
  /\ (count (write_for (uid sub)) (first ++ second) <= 1)%nat.
Proof.
  intros Hon Hbot Hin Hserved Hlatest Hget Hput Hcontent run first second message.
  subst first second.
  destruct (check_run config w true s) as [Hev1 Hdb1].
  destruct (check_run config w true (snd (run s))) as [Hev2 _].
  fold run in Hev1, Hdb1, Hev2. unfold db_after in Hdb1. fold run in Hdb1.
  rewrite Hon, bool_decide_true in Hev1, Hdb1, Hev2 by exact Hbot. cbn [andb] in *.
  rewrite Hev1, Hev2. split.
  - intros channel Hch. split; apply iterations_manual_push; assumption.
  - rewrite count_app. unfold count.
    pose proof (iterations_writes config w true (subscriptions config) (db s) (uid sub))
      as H1.
    pose proof (iterations_writes config w true (subscriptions config)
                  (db (snd (run s))) (uid sub)) as H2.
    pose proof (iterations_seen config w true (subscriptions config)
                  (db (snd (run s))) (uid sub) latestId Hlatest) as H3.
    rewrite Hdb1 in H2, H3. rewrite Hdb1.
    destruct (iterations config w true (subscriptions config) (db s)) as [[evs1 d1] n1].
    cbn [fst snd] in *.
    destruct (iterations config w true (subscriptions config) d1) as [[evs2 d2] n2].
    cbn [fst snd] in *.
    destruct H1 as [_ H1]. destruct (H1 Hput) as [[Hnone _] | (l & Hl & Hone & Hd1)].
    + rewrite Hnone. destruct H2 as [_ H2].
      destruct (H2 Hput) as [[Hnone2 _] | (l & _ & Hone2 & _)].
      * rewrite Hnone2. simpl. lia.
      * rewrite Hone2. simpl. lia.
    + rewrite Hl in Hlatest. injection Hlatest as ->.
      destruct (H3 Hd1) as (Hnone2 & _). rewrite Hone, Hnone2. simpl. lia.
Qed.

Lemma manual_trigger_twice_witness :
  let config := Examples.tracker_config ActSend in
  let w := Examples.tracker_world Examples.art100 [Examples.online_bot] in
  let run := checkAndPushUpdates config w true in
  let message := payload (fst (content config w "100")) in
  (forall channel,
      In channel ["g1"; "g2"] ->
      In (SendMessage "7" channel message true) (events_of run blank)
      /\ In (SendMessage "7" channel message true) (events_of run (snd (run blank))))
  /\ (count (write_for "7") (events_of run blank ++ events_of run (snd (run blank))) <= 1)%nat.
Proof.
  intros config w.
  apply (manual_trigger_twice config w blank Examples.sub7 "100").
  - reflexivity.
  - eexists. reflexivity.
  - left. reflexivity.
  - reflexivity.
  - reflexivity.
  - reflexivity.
  - reflexivity.
  - reflexivity.
Defined.

(** C7 as stated fails: under the block policy an R-18 latest artwork
    yields no content, and neither of two manual runs sends anything. *)
Lemma blocked_artwork_is_not_pushed_by_manual_trigger :
  let config := Examples.tracker_config ActBlock in
  let w := Examples.tracker_world Examples.art100_r18 [Examples.online_bot] in
  let run := checkAndPushUpdates config w true in
  latest_id w "7" = Some "100"
  /\ fst (run blank) = Val (RSummary 1)
  /\ fst (run (snd (run blank))) = Val (RSummary 1)
  /\ count (delivery_for "7") (events_of run blank ++ events_of run (snd (run blank)))
     = 0%nat.
Proof. repeat split. Qed.

(* ===================================================================== *)
(** ** Further properties of the credential manager                      *)
(* ===================================================================== *)

Section MoreService.

Import PixivService.

Variable cfg : PixivService.Config.
Variable w : PixivService.World.

Local Arguments is_auth_failure : simpl never.

Lemma ensure_token_run s :
  ensure_token cfg w s =
  if truthy (accessToken s) then (Val tt, s)
  else match _refreshAccessToken cfg w s with
       | (Val true, s') => (Val tt, s')
       | (Val false, s') => (Exc NoTokenError, s')
       | (Exc e, s') => (Exc e, s')
       end.
Proof.
  unfold ensure_token. rewrite bind_run. unfold gets at 1. cbv beta iota.
  destruct (truthy (accessToken s)); [reflexivity|]. cbn [negb].
  rewrite bind_run. destruct (_refreshAccessToken cfg w s) as [[[]|e] s']; reflexivity.
Qed.

(** X1.  Without a token, with a refresh credential and an exchange that
    yields one, [_request] makes exactly one exchange, then sends the
    request once with the new token; unless that attempt is refused as an
    authorization failure, its outcome is the outcome of the call. *)
Theorem request_without_token_exchanges_once url params s tok :
  truthy (accessToken s) = false ->
  configured cfg = true ->
  exchanged (http_json w (length (calls s))) = Some tok ->
  match http_json w (S (length (calls s))) with
  | Val _ => True
  | Exc e => is_auth_failure (HttpFailure e) = false
  end ->
  _request cfg w url params s =
  (of_http (http_json w (S (length (calls s)))),
   {| accessToken := tok;
      calls := calls s ++ [PostToken (clientId cfg) (clientSecret cfg)
                             (default "" (refreshToken cfg));
                           Get url params tok] |}).
Proof.
  intros Htok Hcfg Hex Hans.
  unfold _request. rewrite bind_run, ensure_token_run, Htok, refresh_calls, Hcfg, Hex.
  cbv beta iota. rewrite try_catch_run, makeRequest_run. cbn [accessToken calls].
  rewrite length_app. cbn [length]. rewrite Nat.add_1_r.
  destruct (http_json w (S (length (calls s)))) as [v|e]; cbn [of_http].
  - rewrite <- app_assoc. reflexivity.
  - rewrite Hans. unfold throw. rewrite <- app_assoc. reflexivity.
Qed.

(** X2.  Without a token, when no refresh credential is configured or the
    exchange yields no token, [_request] throws the no-token error and the
    request itself is never sent: the log grows by the exchange at most. *)
Theorem request_without_token_or_exchange_sends_nothing url params s :
  truthy (accessToken s) = false ->
  configured cfg = false \/ exchanged (http_json w (length (calls s))) = None ->
  fst (_request cfg w url params s) = Exc NoTokenError
  /\ calls (snd (_request cfg w url params s)) =
     calls s ++ (if configured cfg
                 then [PostToken (clientId cfg) (clientSecret cfg)
                         (default "" (refreshToken cfg))]
                 else []).
Proof.
  intros Htok Hno.
  unfold _request. rewrite bind_run, ensure_token_run, Htok, refresh_calls.
  destruct (configured cfg).
  - destruct Hno as [Hno|Hno]; [discriminate|]. rewrite Hno. auto.
  - cbn. rewrite app_nil_r. auto.
Qed.

(** X3.  A failure of the first attempt that is not an authorization
    failure is thrown to the caller as it is: no exchange, no resend, and
    the token stays. *)
Theorem request_other_errors_are_not_retried url params s e :
  truthy (accessToken s) = true ->
  http_json w (length (calls s)) = Exc e ->
  is_auth_failure (HttpFailure e) = false ->
  _request cfg w url params s =
  (Exc (HttpFailure e),
   {| accessToken := accessToken s;
      calls := calls s ++ [Get url params (accessToken s)] |}).
Proof.
  intros Htok Hfail Hother.
  unfold _request. rewrite bind_run, ensure_token_run, Htok.
  cbv beta iota. rewrite try_catch_run, makeRequest_run, Hfail. cbn [of_http].
  rewrite Hother. reflexivity.
Qed.

(** X4.  Whenever [_request] returns a value, a token is held afterwards. *)
Theorem request_success_holds_token url params s v :
  fst (_request cfg w url params s) = Val v ->
  truthy (accessToken (snd (_request cfg w url params s))) = true.
Proof.
  unfold _request. rewrite bind_run.
  destruct (ensure_token cfg w s) as [[[]|e0] s1] eqn:Hens; [|discriminate].
  pose proof (ensure_token_ok cfg w s s1 Hens) as H1.
  rewrite try_catch_run, makeRequest_run.
  destruct (http_json w (length (calls s1))) as [v1|e]; cbn [of_http]; [intros _; exact H1|].
  destruct (is_auth_failure (HttpFailure e)); [|discriminate].
  rewrite bind_run.
  destruct (_refreshAccessToken cfg w _) as [[[]|e'] s3] eqn:Hr; try discriminate.
  rewrite makeRequest_run. cbn [fst snd accessToken]. intros _.
  apply (refresh_true_truthy cfg w _ _ Hr).
Qed.

End MoreService.

Lemma request_without_token_exchanges_once_witness :
  PixivService._request Examples.svc_config Examples.net_answers "u" [] PixivService.init =
  (Val (JObj [("illust", JObj [("id", JNum 7)])]),
   {| PixivService.accessToken := JStr "first";
      PixivService.calls := [PixivService.PostToken "client" "secret" "refresh";
                             PixivService.Get "u" [] (JStr "first")] |}).
Proof.
  exact (request_without_token_exchanges_once Examples.svc_config Examples.net_answers
           "u" [] PixivService.init (JStr "first") eq_refl eq_refl eq_refl I).
Defined.

Lemma request_without_token_or_exchange_sends_nothing_witness :
  fst (PixivService._request Examples.svc_config Examples.net_down "u" []
         PixivService.init) = Exc NoTokenError
  /\ PixivService.calls
       (snd (PixivService._request Examples.svc_config Examples.net_down "u" []
               PixivService.init))
     = [PixivService.PostToken "client" "secret" "refresh"].
Proof.
  exact (request_without_token_or_exchange_sends_nothing Examples.svc_config
           Examples.net_down "u" [] PixivService.init eq_refl (or_intror eq_refl)).
Defined.

Lemma request_other_errors_are_not_retried_witness :
  PixivService._request Examples.svc_config Examples.net_down "u" []
    (Examples.holding "held") =
  (Exc (HttpFailure Examples.server_error),
   {| PixivService.accessToken := JStr "held";
      PixivService.calls := [PixivService.Get "u" [] (JStr "held")] |}).
Proof.
  exact (request_other_errors_are_not_retried Examples.svc_config Examples.net_down
           "u" [] (Examples.holding "held") Examples.server_error
           eq_refl eq_refl eq_refl).
Defined.

Lemma request_success_holds_token_witness :
  truthy (PixivService.accessToken
            (snd (PixivService._request Examples.svc_config Examples.net_answers "u" []
                    PixivService.init))) = true.
Proof.
  exact (request_success_holds_token Examples.svc_config Examples.net_answers "u" []
           PixivService.init _ eq_refl).
Defined.

Lemma starts_with_ci_lowered pat signal rest :
  lower_string signal = lower_string pat ->
  starts_with_ci pat (signal +:+ rest) = true.
Proof.
  revert signal. induction pat as [|p pat IH]; intros signal Heq; [reflexivity|].
  destruct signal as [|c signal]; [discriminate|].
  simpl in Heq. injection Heq as Hc Hrest.
  simpl. rewrite Hc, (IH _ Hrest).
  destruct (Ascii.eqb_spec (lower p) (lower p)); [reflexivity|contradiction].
Qed.

Lemma contains_ci_anywhere pat before signal rest :
  lower_string signal = lower_string pat ->
  contains_ci pat (before +:+ signal +:+ rest) = true.
Proof.
  intros Heq. induction before as [|c before IH].
  - pose proof (starts_with_ci_lowered pat signal rest Heq) as Hhead.
    change ("" +:+ signal +:+ rest) with (signal +:+ rest).
    destruct (signal +:+ rest); simpl; rewrite Hhead; reflexivity.
  - change (String c before +:+ signal +:+ rest)
      with (String c (before +:+ signal +:+ rest)).
    simpl. rewrite IH. apply orb_true_r.
Qed.

(** X5.  The signal test of [_request] finds invalid_grant or
    invalid_token at any position of the message and in any letter case. *)
Theorem invalid_token_signal_found_anywhere before signal rest :
  lower_string signal = "invalid_grant" \/ lower_string signal = "invalid_token" ->
  invalid_token_re (before +:+ signal +:+ rest) = true.
Proof.
  intros [H|H]; unfold invalid_token_re.
  - rewrite (contains_ci_anywhere "invalid_grant" before signal rest H). reflexivity.
  - rewrite (contains_ci_anywhere "invalid_token" before signal rest H). apply orb_true_r.
Qed.

Lemma invalid_token_signal_found_anywhere_witness :
  invalid_token_re ("OAuth error: " +:+ "Invalid_Token" +:+ " (expired)") = true.
Proof.
  exact (invalid_token_signal_found_anywhere "OAuth error: " "Invalid_Token" " (expired)"
           (or_intror eq_refl)).
Defined.

(* ===================================================================== *)
(** ** Further properties of the output renderer                         *)
(* ===================================================================== *)

Lemma quote_run session text s : quote session text s = (quoted session text, s).
Proof. destruct session; reflexivity. Qed.

Lemma call_getArtworkDetail_run w id s :
  call_getArtworkDetail w id s
  = (Val (artwork_detail w id), extend s [CallGetArtworkDetail id]).
Proof. reflexivity. Qed.

Lemma render_full config w session id source isSubscription s :
  render config w session id source isSubscription s
  = (render_outcome config w session id source isSubscription,
     extend s (render_calls config w id isSubscription)).
Proof.
  unfold render, render_outcome, render_calls, stopped_by_policy.
  rewrite bind_run, call_getArtworkDetail_run.
  destruct (artwork_detail w id) as [illust|]; cbv beta iota.
  2: { destruct isSubscription; [reflexivity|apply quote_run]. }
  assert (forall s0,
             (results <- map_all (imageUrls illust) (call_downloadImage w) ;;
              match omap (fun result => result) results with
              | [] => if isSubscription then ret ONull
                      else quote session "所有图片都下载失败了，无法发送。"
              | _ :: _ =>
                lift_res (compose config w session id source isSubscription illust
                            (omap (fun result => result) results))
              end) (extend s0 [CallGetArtworkDetail id])
             = (match omap (download_image w) (imageUrls illust) with
                | [] => if isSubscription then Val ONull
                        else quoted session "所有图片都下载失败了，无法发送。"
                | _ :: _ =>
                  compose config w session id source isSubscription illust
                    (omap (download_image w) (imageUrls illust))
                end,
                extend s0 (CallGetArtworkDetail id ::
                           map (fun url => CallDownloadImage url (download_image w url))
                               (imageUrls illust)))) as Hload.
  { intros s0. rewrite bind_run, map_all_download, omap_id_map, extend_extend.
    destruct (omap (download_image w) (imageUrls illust)); [|reflexivity].
    destruct isSubscription; [reflexivity|apply quote_run]. }
  destruct (isR18 illust), (r18Action config), isSubscription; cbn [andb negb];
    first [ apply Hload | reflexivity | apply quote_run ].
Qed.

Lemma handle_full config w session id source isSubscription s :
  handlePixivRequest config w session id source isSubscription s =
  let r := render_outcome config w session id source isSubscription in
  let evs := render_calls config w id isSubscription in
  if isSubscription then
    (Val match r with Val o => o | Exc _ => ONull end, extend s evs)
  else
    match session with
    | None => (Exc TypeError, s)
    | Some se =>
      if session_send_ok w then
        (Val match r with Val o => o | Exc e => OUnknownError (messageId se) e end,
         extend s ([SessionSend id] ++ evs ++ [DeleteMessage]))
      else (Exc DeliveryError, extend s [SessionSend id])
    end.
Proof.
  apply (handle_run config w session id source isSubscription).
  intros s0. apply render_full.
Qed.

Lemma compose_shape config w session id source isSubscription illust b bs o :
  compose config w session id source isSubscription illust (b :: bs) = Val o ->
  exists text rest,
    rest <> [] /\ (o = OElements (EP text :: rest) \/ o = OElement (EFigure (EP text :: rest))).
Proof.
  unfold compose. destruct (safeTitle illust) as [safe|e]; [|discriminate].
  destruct (shouldCreatePdf config illust _).
  - destruct (createPdfFile config w illust (b :: bs)) as [doc|e]; [|discriminate].
    intros [= <-]. do 2 eexists. split; [|left; reflexivity]. discriminate.
  - destruct (shouldForward config _ _); intros [= <-]; do 2 eexists;
      (split; [|first [left; reflexivity | right; reflexivity]]); discriminate.
Qed.

(** X6.  A request that is not a subscription push, from a session whose
    status message goes out, never throws and is always answered: its
    result is never null.  The status message is sent first and deleted
    last, on every path. *)
Theorem interactive_request_is_answered config w se id source s :
  session_send_ok w = true ->
  exists o evs,
    handlePixivRequest config w (Some se) id source false s
    = (Val o, extend s (SessionSend id :: evs ++ [DeleteMessage]))
    /\ falsy_output o = false
    /\ events_of (handlePixivRequest config w (Some se) id source false) s
       = SessionSend id :: evs ++ [DeleteMessage].
Proof.
  intros Hsend. pose proof (handle_full config w (Some se) id source false s) as Hrun.
  cbv zeta in Hrun. rewrite Hsend in Hrun. cbv iota in Hrun.
  do 2 eexists. split; [exact Hrun|]. split; [|exact (events_of_extend _ _ _ _ Hrun)].
  unfold render_outcome, quoted.
  destruct (artwork_detail w id) as [illust|]; [|reflexivity].
  destruct (stopped_by_policy config illust false).
  { destruct (r18Action config); reflexivity. }
  destruct (omap (download_image w) (imageUrls illust)) as [|b bs] eqn:Hb; [reflexivity|].
  destruct (compose config w (Some se) id source false illust (b :: bs)) as [o|e] eqn:Hc;
    [|reflexivity].
  destruct (compose_shape _ _ _ _ _ _ _ _ _ _ Hc) as (text & rest & _ & [-> | ->]);
    reflexivity.
Qed.

Lemma interactive_request_is_answered_witness :
  let config := Examples.config_with ActWarn 3 10 true [] in
  let w := Examples.world_with (fun _ => None) Examples.no_listing
             Examples.sharp_encodes [] in
  exists o evs,
    handlePixivRequest config w (Some Examples.session) "7" Command false blank
    = (Val o, extend blank (SessionSend "7" :: evs ++ [DeleteMessage]))
    /\ falsy_output o = false
    /\ events_of (handlePixivRequest config w (Some Examples.session) "7" Command false)
         blank
       = SessionSend "7" :: evs ++ [DeleteMessage].
Proof.
  intros config w.
  exact (interactive_request_is_answered config w Examples.session "7" Command blank
           eq_refl).
Defined.

(** X7.  A subscription push never throws, sends no status message and
    deletes none, makes only gallery calls, and resolves to null or to
    message elements, never to a reply text. *)
Theorem subscription_request_is_silent config w session id source s :
  exists o evs,
    handlePixivRequest config w session id source true s = (Val o, extend s evs)
    /\ forallb gallery_call evs = true
    /\ match o with
       | OQuoted _ _ | OUnknownError _ _ => False
       | _ => True
       end.
Proof.
  pose proof (handle_full config w session id source true s) as Hrun. cbv zeta in Hrun.
  do 2 eexists. split; [exact Hrun|]. split.
  - unfold render_calls. cbn [forallb gallery_call andb].
    destruct (artwork_detail w id) as [illust|]; [|reflexivity].
    destruct (stopped_by_policy config illust true); [reflexivity|].
    induction (imageUrls illust) as [|url urls IH]; [reflexivity|exact IH].
  - unfold render_outcome.
    destruct (artwork_detail w id) as [illust|]; [|exact I].
    destruct (stopped_by_policy config illust true); [exact I|].
    destruct (omap (download_image w) (imageUrls illust)) as [|b bs]; [exact I|].
    destruct (compose config w session id source true illust (b :: bs)) as [o|e] eqn:Hc;
      [|exact I].
    destruct (compose_shape _ _ _ _ _ _ _ _ _ _ Hc) as (text & rest & _ & [-> | ->]);
      exact I.
Qed.

(** X8.  When the R-18 policy stops a request (block, or warn for a
    request that is not a subscription push), no image is downloaded on
    any path, whatever the session is.  For a subscription push, with or
    without a session, only the artwork is looked up and the answer is
    null; for a request from a session whose status message goes out,
    only the artwork is looked up between the status message and its
    deletion, and the answer is the block notice, or under warn the
    warning with title and author. *)
Theorem r18_policy_stops_before_download config w (session : option Session) id source
    (isSubscription : bool) s illust :
  artwork_detail w id = Some illust ->
  stopped_by_policy config illust isSubscription = true ->
  let run := handlePixivRequest config w session id source isSubscription in
  forallb (fun ev => match ev with CallDownloadImage _ _ => false | _ => true end)
    (events_of run s) = true
  /\ (isSubscription = true \/ (is_Some session /\ session_send_ok w = true) ->
      events_of run s
      = (if isSubscription then [CallGetArtworkDetail id]
         else [SessionSend id; CallGetArtworkDetail id; DeleteMessage])
      /\ fst (run s)
         = if isSubscription then Val ONull
           else quoted session
                  match r18Action config with
                  | ActWarn =>
                    "[警告] 该作品为 R-18/R-18G 内容！" +:+ nl +:+ "标题: "
                    +:+ title illust +:+ nl +:+ "作者: " +:+ user_name (user illust)
                  | _ => "根据配置，已屏蔽 R-18 作品。"
                  end).
Proof.
  intros Hdetail Hstop run. subst run.
  pose proof (handle_full config w session id source isSubscription s) as Hrun.
  cbv zeta in Hrun. unfold render_outcome, render_calls in Hrun.
  rewrite Hdetail, Hstop in Hrun.
  destruct isSubscription; cbv iota in Hrun.
  - rewrite (events_of_extend _ _ _ _ Hrun), Hrun. split; [reflexivity|]. auto.
  - destruct session as [se|].
    2: { split; [|intros [H | [[se H] _]]; discriminate H].
         unfold events_of. rewrite Hrun. cbn [snd]. rewrite drop_all. reflexivity. }
    destruct (session_send_ok w).
    2: { split; [|intros [H | [_ H]]; discriminate H].
         rewrite (events_of_extend _ _ _ _ Hrun). reflexivity. }
    rewrite (events_of_extend _ _ _ _ Hrun), Hrun. split; [reflexivity|].
    intros _. split; [reflexivity|]. destruct (r18Action config); reflexivity.
Qed.

Lemma r18_policy_stops_before_download_witness :
  let config := Examples.config_with ActBlock 3 10 true [] in
  let w := Examples.world_with (Examples.one_artwork Examples.art100_r18)
             Examples.no_listing Examples.sharp_encodes [] in
  let run := handlePixivRequest config w None "100" Middleware true in
  events_of run blank = [CallGetArtworkDetail "100"] /\ fst (run blank) = Val ONull.
Proof.
  intros config w.
  exact (proj2 (r18_policy_stops_before_download config w None "100" Middleware true
                  blank Examples.art100_r18 eq_refl eq_refl)
           (or_introl eq_refl)).
Defined.

(** X9.  The renderer never emits an empty payload: a list of elements or
    a figure it returns starts with the text block and has at least one
    element after it. *)
Theorem output_is_never_empty config w session id source isSubscription s :
  match fst (handlePixivRequest config w session id source isSubscription s) with
  | Val (OElements l) | Val (OElement (EFigure l)) =>
    exists text rest, l = EP text :: rest /\ rest <> []
  | _ => True
  end.
Proof.
  rewrite handle_full. cbv zeta.
  assert (match render_outcome config w session id source isSubscription with
          | Val (OElements l) | Val (OElement (EFigure l)) =>
            exists text rest, l = EP text :: rest /\ rest <> []
          | _ => True
          end) as Hshape.
  { unfold render_outcome, quoted.
    destruct (artwork_detail w id) as [illust|].
    2: { destruct isSubscription; [exact I|]. destruct session; exact I. }
    destruct (stopped_by_policy config illust isSubscription).
    { destruct isSubscription; [exact I|]. destruct (r18Action config), session; exact I. }
    destruct (omap (download_image w) (imageUrls illust)) as [|b bs].
    { destruct isSubscription; [exact I|]. destruct session; exact I. }
    destruct (compose config w session id source isSubscription illust (b :: bs))
      as [o|e] eqn:Hc; [|exact I].
    destruct (compose_shape _ _ _ _ _ _ _ _ _ _ Hc) as (text & rest & Hne & [-> | ->]);
      eauto. }
  destruct isSubscription; cbn [fst].
  - destruct (render_outcome config w session id source true) as [o|e]; [exact Hshape|exact I].
  - destruct session as [se|]; [|exact I].
    destruct (session_send_ok w); [|exact I]. cbn [fst].
    destruct (render_outcome config w (Some se) id source false) as [o|e];
      [exact Hshape|exact I].
Qed.

Lemma compose_plain config w (session : option Session) id source
    (isSubscription : bool) illust (buffers : list Buffer) :
  title illust <> "" ->
  shouldCreatePdf config illust (Z.of_nat (length buffers)) = false ->
  shouldForward config (Z.of_nat (length buffers))
    (if isSubscription then pushBotPlatform config else platform <$> session) = false ->
  compose config w session id source isSubscription illust buffers
  = Val (OElements (EP (textInfo config illust id source isSubscription)
                    :: map (fun buffer => EImage buffer "image/png") buffers)).
Proof.
  intros Htitle Hpdf Hfwd. unfold compose.
  rewrite (safeTitle_nonempty _ Htitle), Hpdf, Hfwd. reflexivity.
Qed.

(** X10.  For an artwork with a title that is not empty, found and not
    stopped by the policy, of which at least one page could be downloaded,
    requested as a subscription push or from a session whose status
    message goes out: when neither PDF mode nor forwarding is selected,
    the output is the text followed by one image element per page that
    could be downloaded, in page order: pages whose download failed are
    left out and the others keep their order. *)
Theorem plain_images_in_page_order config w (session : option Session) id source
    (isSubscription : bool) s illust :
  artwork_detail w id = Some illust ->
  stopped_by_policy config illust isSubscription = false ->
  title illust <> "" ->
  isSubscription = true \/ (is_Some session /\ session_send_ok w = true) ->
  let buffers := omap (download_image w) (imageUrls illust) in
  buffers <> [] ->
  shouldCreatePdf config illust (Z.of_nat (length buffers)) = false ->
  shouldForward config (Z.of_nat (length buffers))
    (if isSubscription then pushBotPlatform config else platform <$> session) = false ->
  fst (handlePixivRequest config w session id source isSubscription s)
  = Val (OElements (EP (textInfo config illust id source isSubscription)
                    :: map (fun buffer => EImage buffer "image/png") buffers)).
Proof.
  intros Hdetail Hpass Htitle Hmode buffers Hne Hpdf Hfwd.
  rewrite handle_full. cbv zeta. unfold render_outcome.
  rewrite Hdetail, Hpass. fold buffers.
  destruct buffers as [|b bs] eqn:Hb; [contradiction|]. rewrite <- Hb in *.
  rewrite (compose_plain _ _ _ _ _ _ _ _ Htitle Hpdf Hfwd).
  destruct Hmode as [-> | [[se ->] Hsend]]; [reflexivity|].
  destruct isSubscription; [reflexivity|]. rewrite Hsend. reflexivity.
Qed.

Lemma plain_images_in_page_order_witness :
  let config := Examples.config_with ActSend 3 10 true [] in
  let illust := Examples.artwork 7 "title" 0 ["a"; "lost"; "b"] in
  let w := Examples.world_with_downloads (Examples.one_artwork illust) ["a"; "b"] in
  fst (handlePixivRequest config w (Some Examples.session) "7" Command false blank)
  = Val (OElements [EP (textInfo config illust "7" Command false);
                    EImage Examples.png "image/png"; EImage Examples.png "image/png"]).
Proof.
  intros config illust w.
  apply (plain_images_in_page_order config w (Some Examples.session) "7" Command false
           blank illust).
  - reflexivity.
  - reflexivity.
  - discriminate.
  - right. split; [eexists; reflexivity|reflexivity].
  - discriminate.
  - reflexivity.
  - reflexivity.
Defined.

(** X11.  When the artwork is found and not stopped by the policy but no
    image can be downloaded, in a subscription push, with or without a
    session, or in a request from a session whose status message goes
    out: every url is tried once, in page order, and the request ends
    with null for a subscription and with the failure notice otherwise;
    no payload without an image is sent and no PDF is built. *)
Theorem all_downloads_failed config w (session : option Session) id source
    (isSubscription : bool) s illust :
  artwork_detail w id = Some illust ->
  stopped_by_policy config illust isSubscription = false ->
  Forall (fun url => download_image w url = None) (imageUrls illust) ->
  isSubscription = true \/ (is_Some session /\ session_send_ok w = true) ->
  let run := handlePixivRequest config w session id source isSubscription in
  fst (run s)
  = (if isSubscription then Val ONull
     else quoted session "所有图片都下载失败了，无法发送。")
  /\ List.filter (fun ev => negb (gallery_call ev)) (events_of run s)
     = (if isSubscription then [] else [SessionSend id; DeleteMessage])
  /\ List.filter gallery_call (events_of run s)
     = CallGetArtworkDetail id :: map (fun url => CallDownloadImage url None) (imageUrls illust).
Proof.
  intros Hdetail Hpass Hfail Hmode run. subst run.
  pose proof (handle_full config w session id source isSubscription s) as Hrun.
  cbv zeta in Hrun. unfold render_outcome, render_calls in Hrun.
  rewrite Hdetail, Hpass in Hrun.
  assert (omap (download_image w) (imageUrls illust) = []) as Hnone.
  { clear Hrun. induction Hfail as [|url urls Hurl _ IH]; [reflexivity|].
    cbn. rewrite Hurl. exact IH. }
  assert (map (fun url => CallDownloadImage url (download_image w url)) (imageUrls illust)
          = map (fun url => CallDownloadImage url None) (imageUrls illust)) as Hevs.
  { clear Hrun Hnone. induction Hfail as [|url urls Hurl _ IH]; [reflexivity|].
    simpl. rewrite Hurl, IH. reflexivity. }
  rewrite Hnone, Hevs in Hrun.
  assert (forall urls : list string,
             List.filter gallery_call (map (fun url => CallDownloadImage url None) urls)
             = map (fun url => CallDownloadImage url None) urls
             /\ List.filter (fun ev => negb (gallery_call ev))
                  (map (fun url => CallDownloadImage url None) urls) = []) as Hf.
  { induction urls as [|url urls [IH1 IH2]]; [auto|]. simpl. rewrite IH1, IH2. auto. }
  destruct (Hf (imageUrls illust)) as [Hf1 Hf2].
  destruct isSubscription; cbv iota in Hrun.
  - rewrite (events_of_extend _ _ _ _ Hrun), Hrun; cbn [fst].
    repeat split; simpl; [exact Hf2 | rewrite Hf1; reflexivity].
  - destruct Hmode as [Hsub | [[se ->] Hsend]]; [discriminate Hsub|].
    rewrite Hsend in Hrun.
    rewrite (events_of_extend _ _ _ _ Hrun), Hrun; cbn [fst].
    repeat split.
    + simpl. rewrite List.filter_app, Hf2. reflexivity.
    + simpl. rewrite List.filter_app, Hf1. simpl. rewrite app_nil_r. reflexivity.
Qed.

Lemma all_downloads_failed_witness :
  let config := Examples.config_with ActSend 3 10 true [] in
  let illust := Examples.artwork 7 "title" 0 ["a"; "b"] in
  let w := Examples.world_with_downloads (Examples.one_artwork illust) [] in
  let run := handlePixivRequest config w None "7" Middleware true in
  fst (run blank) = Val ONull
  /\ List.filter (fun ev => negb (gallery_call ev)) (events_of run blank) = []
  /\ List.filter gallery_call (events_of run blank)
     = [CallGetArtworkDetail "7"; CallDownloadImage "a" None; CallDownloadImage "b" None].
Proof.
  intros config illust w.
  apply (all_downloads_failed config w None "7" Middleware true blank illust).
  - reflexivity.
  - reflexivity.
  - repeat constructor.
  - left. reflexivity.
Defined.

Lemma add_pages_processed config w buffers recipe ps :
  add_pages config w buffers recipe = Val ps ->
  Forall (fun buffer =>
            exists tempImage dims,
              sharp_toFile w (jpeg_option config) buffer = Some tempImage
              /\ sharp_metadata w tempImage = Some dims) buffers.
Proof.
  intros Hps. destruct (add_pages_spec _ _ _ _ _ Hps) as (new & _ & Hnew).
  clear Hps. induction Hnew as [|buffer page rest new' [Hfile Hmeta] _ IH].
  - apply List.Forall_nil.
  - apply List.Forall_cons; [|exact IH].
    exists (page_image page), (page_width page, page_height page). auto.
Qed.

(** X12.  [createPdfFile] returns a document exactly when the title is not
    empty and sharp can write every buffer to its file and read the file's
    metadata; the document then has one page per buffer, and it carries the
    configured password as both user and owner password, or none. *)
Theorem createPdfFile_succeeds_iff config w illust buffers :
  ((exists doc, createPdfFile config w illust buffers = Val doc)
   <-> (title illust <> ""
        /\ Forall (fun buffer =>
                     exists tempImage dims,
                       sharp_toFile w (jpeg_option config) buffer = Some tempImage
                       /\ sharp_metadata w tempImage = Some dims) buffers))
  /\ match createPdfFile config w illust buffers with
     | Val doc =>
       length (pages doc) = length buffers
       /\ userPassword doc = ownerPassword doc
       /\ userPassword doc
          = (if truthy_opt (pdfPassword config) then pdfPassword config else None)
     | Exc _ => True
     end.
Proof.
  unfold createPdfFile, safeTitle. split.
  - split.
    + intros [doc Hdoc].
      destruct (String.eqb_spec (title illust) ""); [discriminate|].
      destruct (add_pages config w buffers []) as [ps|e] eqn:Hps; [|discriminate].
      split; [assumption|]. exact (add_pages_processed _ _ _ _ _ Hps).
    + intros [Htitle Hall].
      destruct (String.eqb_spec (title illust) ""); [contradiction|].
      destruct (add_pages_total config w buffers [] Hall) as [ps ->]. eauto.
  - destruct (String.eqb (title illust) ""); [exact I|].
    destruct (add_pages config w buffers []) as [ps|e] eqn:Hps; [|exact I].
    destruct (add_pages_spec _ _ _ _ _ Hps) as (new & -> & Hnew). cbn [app].
    rewrite pages_of_password.
    split; [symmetry; eapply Forall2_length; exact Hnew|].
    destruct (truthy_opt (pdfPassword config)); auto.
Qed.

Lemma replace_unsafe_safe s c :
  In c (list_ascii_of_string (replace_unsafe s)) -> unsafe_char c = false.
Proof.
  induction s as [|c0 s IH]; simpl; [tauto|].
  intros [<- | Hin]; [|exact (IH Hin)].
  destruct (unsafe_char c0) eqn:Hc0; [reflexivity|exact Hc0].
Qed.

Lemma replace_unsafe_length s : String.length (replace_unsafe s) = String.length s.
Proof. induction s as [|c s IH]; simpl; congruence. Qed.

(** X13.  The file title [safeTitle] computes has the length of the
    artwork title and contains none of the characters that are not allowed
    in a file name (backslash, slash, colon, star, question mark, double
    quote, angle brackets, bar); it fails only for an empty title. *)
Theorem safeTitle_is_a_file_name illust :
  match safeTitle illust with
  | Val name =>
    String.length name = String.length (title illust)
    /\ forall c, In c (list_ascii_of_string name) -> unsafe_char c = false
  | Exc _ => title illust = ""
  end.
Proof.
  unfold safeTitle. destruct (String.eqb_spec (title illust) ""); [assumption|].
  split; [apply replace_unsafe_length|apply replace_unsafe_safe].
Qed.

(* ===================================================================== *)
(** ** Further properties of the subscription tracker                    *)
(* ===================================================================== *)

Section MoreLoop.

Variable config : Config.
Variable w : World.
Variable isManualTrigger : bool.

(** A loop over subscriptions of other authors does not concern [author]. *)
Lemma iterations_absent subs d author :
  Forall (fun sub => uid sub <> author) subs ->
  let '(evs, d', _) := iterations config w isManualTrigger subs d in
  List.filter (write_for author) evs = []
  /\ List.filter (delivery_for author) evs = []
  /\ d' !! author = d !! author.
Proof.
  intros Hall. revert d. induction Hall as [|sub rest Hne _ IH]; intros d; simpl; [auto|].
  pose proof (iteration_other config w isManualTrigger sub d author Hne) as Hhead.
  destruct (iteration config w isManualTrigger sub d) as [[evs d1] n].
  specialize (IH d1).
  destruct (iterations config w isManualTrigger rest d1) as [[evs' d2] n'].
  destruct Hhead as (Hw & Hd & Hsame), IH as (Hw' & Hd' & Hsame').
  rewrite !List.filter_app, Hw, Hw', Hd, Hd'. repeat split. congruence.
Qed.

(** An author whose listing is unavailable or whose record cannot be read
    is passed over. *)
Lemma iterations_skipped subs d author :
  latest_id w author = None \/ database_get_ok w author = false ->
  let '(evs, d', _) := iterations config w isManualTrigger subs d in
  List.filter (write_for author) evs = []
  /\ List.filter (delivery_for author) evs = []
  /\ d' !! author = d !! author.
Proof.
  intros Hskip. revert d. induction subs as [|sub rest IH]; intros d; simpl; [auto|].
  assert (let '(evs, d1, _) := iteration config w isManualTrigger sub d in
          List.filter (write_for author) evs = []
          /\ List.filter (delivery_for author) evs = []
          /\ d1 !! author = d !! author) as Hhead.
  { destruct (decide (uid sub = author)) as [Heq|Hne].
    - unfold iteration. rewrite Heq.
      destruct (negb (served sub)); [auto|].
      destruct (latest_id w author) as [l|]; [|auto].
      destruct Hskip as [Hl|Hg]; [discriminate|]. rewrite Hg. cbn [negb]. auto.
    - exact (iteration_other config w isManualTrigger sub d author Hne). }
  destruct (iteration config w isManualTrigger sub d) as [[evs d1] n].
  specialize (IH d1).
  destruct (iterations config w isManualTrigger rest d1) as [[evs' d2] n'].
  destruct Hhead as (Hw & Hd & Hsame), IH as (Hw' & Hd' & Hsame').
  rewrite !List.filter_app, Hw, Hw', Hd, Hd'. repeat split. congruence.
Qed.

(** The counter of a loop is at most the number of served subscriptions. *)
Lemma iterations_count subs d :
  (snd (iterations config w isManualTrigger subs d) <= length (List.filter served subs))%nat.
Proof.
  revert d. induction subs as [|sub rest IH]; intros d; simpl; [lia|].
  assert (snd (iteration config w isManualTrigger sub d)
          <= (if served sub then 1 else 0))%nat as Hhead.
  { unfold iteration. destruct (served sub); cbn [negb]; [|simpl; lia].
    destruct (latest_id w (uid sub)); [|simpl; lia].
    destruct (negb (database_get_ok w (uid sub))); [simpl; lia|].
    destruct (isNew _ _ || _); [|simpl; lia].
    destruct (content config w s) as [out evs].
    destruct (falsy_output out); [simpl; lia|].
    destruct (isNew _ _); simpl; lia. }
  destruct (iteration config w isManualTrigger sub d) as [[evs d1] n].
  specialize (IH d1).
  destruct (iterations config w isManualTrigger rest d1) as [[evs' d2] n'].
  cbn [snd] in *. destruct (served sub); simpl; lia.
Qed.

End MoreLoop.

Lemma check_result config w isManualTrigger s :
  fst (checkAndPushUpdates config w isManualTrigger s) =
  Val (if enableSubscription config then
         match find_bot config w with
         | None => if isManualTrigger then RBotOffline else RUndefined
         | Some _ =>
           if isManualTrigger
           then RSummary (snd (iterations config w isManualTrigger
                                 (subscriptions config) (db s)))
           else RUndefined
         end
       else RUndefined).
Proof.
  destruct s as [d0 t0 u0]. unfold checkAndPushUpdates. cbn [db].
  destruct (enableSubscription config); cbn [negb]; [|reflexivity].
  destruct (find_bot config w) as [bot|]; [|reflexivity].
  rewrite bind_run. unfold set_updatesFound at 1, modify at 1. cbv beta iota.
  rewrite bind_run, loop_run. cbn [db trace updatesFound].
  destruct (iterations config w isManualTrigger (subscriptions config) d0)
    as [[evs d] n].
  rewrite bind_run. unfold gets, ret. reflexivity.
Qed.

(** X14.  For a subscription listed once that is pushed (its latest id is
    new, or the trigger is manual), every channel is sent the content
    exactly once, in the order of the list, whatever the earlier sends did:
    a failed delivery does not keep the remaining channels from theirs. *)
Theorem every_channel_gets_its_delivery config w isManualTrigger s sub latestId :
  enableSubscription config = true ->
  is_Some (find_bot config w) ->
  In sub (subscriptions config) ->
  NoDup (map uid (subscriptions config)) ->
  served sub = true ->
  latest_id w (uid sub) = Some latestId ->
  database_get_ok w (uid sub) = true ->
  isNew latestId (db s !! uid sub) || isManualTrigger = true ->
  falsy_output (fst (content config w latestId)) = false ->
  let message := payload (fst (content config w latestId)) in
  List.filter (delivery_for (uid sub))
    (events_of (checkAndPushUpdates config w isManualTrigger) s)
  = map (fun channel =>
           SendMessage (uid sub) channel message (sendMessage_ok w channel message))
        (channelIds sub).
Proof.
  intros Hon Hbot Hin Hnodup Hserved Hlatest Hget Hpush Hcontent message.
  destruct (check_run config w isManualTrigger s) as [-> _].
  rewrite Hon, bool_decide_true by exact Hbot. cbn [andb].
  destruct (in_split _ _ Hin) as (before & after & Hsplit).
  rewrite Hsplit in Hnodup |- *. rewrite map_app in Hnodup. simpl in Hnodup.
  apply NoDup_app in Hnodup as (_ & Hdisj & Hafter).
  apply NoDup_cons in Hafter as [Hafter _].
  assert (Forall (fun sub' => uid sub' <> uid sub) before) as Hbefore.
  { apply Forall_forall. intros sub' Hin' Heq. apply list_elem_of_In in Hin'.
    apply (Hdisj (uid sub)); [rewrite <- Heq; apply list_elem_of_In, in_map, Hin'|].
    apply list_elem_of_In. left. reflexivity. }
  assert (Forall (fun sub' => uid sub' <> uid sub) after) as Hafter'.
  { apply Forall_forall. intros sub' Hin' Heq. apply list_elem_of_In in Hin'.
    apply Hafter. rewrite <- Heq. apply list_elem_of_In, in_map, Hin'. }
  clear Hsplit Hin Hdisj Hafter. revert Hpush. generalize (db s) as d.
  induction Hbefore as [|sub0 before Hne _ IH]; intros d Hpush.
  - simpl.
    pose proof (iteration_pushes config w isManualTrigger sub d latestId Hserved Hlatest
                  Hget Hpush Hcontent) as Hp. cbv zeta in Hp.
    destruct (iteration config w isManualTrigger sub d) as [[evs d1] n].
    pose proof (iterations_absent config w isManualTrigger after d1 (uid sub) Hafter')
      as Hrest.
    destruct (iterations config w isManualTrigger after d1) as [[evs' d2] n'].
    cbn [fst]. destruct Hp as [Hsends _]. destruct Hrest as (_ & Hnone & _).
    rewrite List.filter_app, Hsends, Hnone, app_nil_r. reflexivity.
  - simpl.
    pose proof (iteration_other config w isManualTrigger sub0 d (uid sub) Hne) as Hhead.
    destruct (iteration config w isManualTrigger sub0 d) as [[evs d1] n].
    destruct Hhead as (_ & Hnone & Hsame).
    specialize (IH d1). rewrite Hsame in IH. specialize (IH Hpush).
    destruct (iterations config w isManualTrigger (before ++ sub :: after) d1)
      as [[evs' d2] n'].
    cbn [fst] in *. rewrite List.filter_app, Hnone. exact IH.
Qed.

Lemma every_channel_gets_its_delivery_witness :
  let config := Examples.tracker_config ActSend in
  let w := Examples.flaky_world Examples.art100 in
  let message := payload (fst (content config w "100")) in
  List.filter (delivery_for "7") (events_of (checkAndPushUpdates config w false) blank)
  = [SendMessage "7" "g1" message false; SendMessage "7" "g2" message true].
Proof.
  intros config w.
  apply (every_channel_gets_its_delivery config w false blank Examples.sub7 "100").
  - reflexivity.
  - eexists. reflexivity.
  - left. reflexivity.
  - apply NoDup_singleton.
  - reflexivity.
  - reflexivity.
  - reflexivity.
  - reflexivity.
  - reflexivity.
Defined.

(** X15.  No error escapes [checkAndPushUpdates], whatever the store, the
    gallery and the sink do.  A timer run resolves to undefined; a manual
    run resolves to the offline notice when the bot is missing and
    otherwise to the summary, whose count is at most the number of
    subscriptions that have a uid and a channel. *)
Theorem check_never_throws config w isManualTrigger s :
  exists result,
    fst (checkAndPushUpdates config w isManualTrigger s) = Val result
    /\ match result with
       | RUndefined => isManualTrigger = false \/ enableSubscription config = false
       | RBotOffline => isManualTrigger = true /\ find_bot config w = None
       | RSummary n =>
         isManualTrigger = true /\ is_Some (find_bot config w)
         /\ (n <= length (List.filter served (subscriptions config)))%nat
       end.
Proof.
  eexists. split; [apply check_result|].
  destruct (enableSubscription config); [|auto].
  destruct (find_bot config w) as [bot|]; destruct isManualTrigger; auto.
  repeat split; [eauto|apply iterations_count].
Qed.

(** X16.  In any cycle, an author whose listing is empty or unavailable, or
    whose record cannot be read, gets no delivery and no write, and the
    record stays as it is; the cycle goes on with the other authors. *)
Theorem unavailable_author_is_passed_over config w isManualTrigger s author :
  latest_id w author = None \/ database_get_ok w author = false ->
  let cycle := checkAndPushUpdates config w isManualTrigger in
  List.filter (delivery_for author) (events_of cycle s) = []
  /\ List.filter (write_for author) (events_of cycle s) = []
  /\ db_after cycle s !! author = db s !! author.
Proof.
  intros Hskip cycle. subst cycle.
  destruct (check_run config w isManualTrigger s) as [-> ->].
  destruct (enableSubscription config && bool_decide (is_Some (find_bot config w))); [|auto].
  pose proof (iterations_skipped config w isManualTrigger (subscriptions config) (db s)
                author Hskip) as H.
  destruct (iterations config w isManualTrigger (subscriptions config) (db s))
    as [[evs d] n].
  cbn [fst snd]. tauto.
Qed.

Lemma unavailable_author_is_passed_over_witness :
  let config := Examples.tracker_config ActSend in
  let w := Examples.unreadable_world Examples.art100 in
  let cycle := checkAndPushUpdates config w true in
  List.filter (delivery_for "7") (events_of cycle blank) = []
  /\ List.filter (write_for "7") (events_of cycle blank) = []
  /\ db_after cycle blank !! "7" = db blank !! "7".
Proof.
  intros config w.
  exact (unavailable_author_is_passed_over config w true blank "7" (or_intror eq_refl)).
Defined.

(** X17.  After a cycle that wrote the new id of an author, the next timer
    cycle against the same listing sends nothing for that author and
    writes nothing: an artwork is pushed once. *)
Theorem pushed_artwork_is_not_pushed_again config w isManualTrigger s sub latestId :
  enableSubscription config = true ->
  is_Some (find_bot config w) ->
  In sub (subscriptions config) ->
  served sub = true ->
  latest_id w (uid sub) = Some latestId ->
  db s !! uid sub <> Some latestId ->
  database_get_ok w (uid sub) = true ->
  database_write_ok w (uid sub) = true ->
  falsy_output (fst (content config w latestId)) = false ->
  let after := snd (checkAndPushUpdates config w isManualTrigger s) in
  let next := checkAndPushUpdates config w false in
  List.filter (delivery_for (uid sub)) (events_of next after) = []
  /\ List.filter (write_for (uid sub)) (events_of next after) = []
  /\ db_after next after !! uid sub = Some latestId.
Proof.
  intros Hon Hbot Hin Hserved Hlatest Hnew Hget Hput Hcontent after next. subst next.
  assert (db after !! uid sub = Some latestId) as Hseen.
  { subst after.
    destruct (check_run config w isManualTrigger s) as [_ Hdb]. unfold db_after in Hdb.
    rewrite Hdb, Hon, bool_decide_true by exact Hbot. cbn [andb].
    pose proof (iterations_new config w isManualTrigger (subscriptions config) (db s) sub
                  latestId Hin Hserved Hlatest Hnew Hget Hput Hcontent) as H.
    destruct (iterations config w isManualTrigger (subscriptions config) (db s))
      as [[evs d] n].
    exact (proj2 H). }
  destruct (check_run config w false after) as [-> ->].
  destruct (enableSubscription config && bool_decide (is_Some (find_bot config w)));
    [|auto].
  pose proof (iterations_seen config w false (subscriptions config) (db after) (uid sub)
                latestId Hlatest Hseen) as H.
  destruct (iterations config w false (subscriptions config) (db after)) as [[evs d] n].
  cbn [fst snd]. destruct H as (Hw & Hd & Hdel). auto.
Qed.

Lemma pushed_artwork_is_not_pushed_again_witness :
  let config := Examples.tracker_config ActSend in
  let w := Examples.tracker_world Examples.art100 [Examples.online_bot] in
  let after := snd (checkAndPushUpdates config w false blank) in
  let next := checkAndPushUpdates config w false in
  List.filter (delivery_for "7") (events_of next after) = []
  /\ List.filter (write_for "7") (events_of next after) = []
  /\ db_after next after !! "7" = Some "100".
Proof.
  intros config w.
  apply (pushed_artwork_is_not_pushed_again config w false blank Examples.sub7 "100").
  - reflexivity.
  - eexists. reflexivity.
  - left. reflexivity.
  - reflexivity.
  - reflexivity.
  - discriminate.
  - reflexivity.
  - reflexivity.
  - reflexivity.
Defined.

(** The [ready] pass, seen as a whole: what it logs, which records it
    leaves alone, and which it creates when it runs to its end. *)
Lemma ready_loop config w s :
  exists r evs d',
    ready config w s
    = (r, {| db := d'; trace := trace s ++ evs; updatesFound := updatesFound s |})
    /\ Forall (fun ev => match ev with
                         | DbGet _ | CallGetUserIllusts _ | DbCreate _ _ _ => True
                         | _ => False
                         end) evs
    /\ (forall author seen,
           db s !! author = Some seen ->
           d' !! author = Some seen /\ ~ In (CallGetUserIllusts author) evs)
    /\ (r = Val tt ->
        forall sub latestId,
          In sub (subscriptions config) ->
          latest_id w (uid sub) = Some latestId ->
          db s !! uid sub = None ->
          d' !! uid sub = Some latestId).
Proof.
  unfold ready. set (body := fun sub : Subscription => _).
  generalize (subscriptions config) as subs.
  intros subs. revert s. induction subs as [|sub rest IH]; intros s; cbn [for_each].
  { exists (Val tt), [], (db s). unfold ret. rewrite app_nil_r. destruct s.
    repeat split; [constructor | assumption | tauto | intros _ ? ? []]. }
  assert (exists r1 evs1 d1,
             body sub s
             = (r1, {| db := d1; trace := trace s ++ evs1; updatesFound := updatesFound s |})
             /\ Forall (fun ev => match ev with
                                  | DbGet _ | CallGetUserIllusts _ | DbCreate _ _ _ => True
                                  | _ => False
                                  end) evs1
             /\ (forall author seen,
                    db s !! author = Some seen ->
                    d1 !! author = Some seen /\ ~ In (CallGetUserIllusts author) evs1)
             /\ (forall author, d1 !! author = db s !! author
                                \/ (db s !! author = None /\ author = uid sub))
             /\ (r1 = Val tt ->
                 forall latestId,
                   latest_id w (uid sub) = Some latestId ->
                   db s !! uid sub = None -> d1 !! uid sub = Some latestId))
    as (r1 & evs1 & d1 & Hstep & Hev1 & Hkeep1 & Hframe1 & Hseed1).
  { subst body. cbv beta. rewrite bind_run, database_get_run.
    destruct (database_get_ok w (uid sub)).
    2: { do 3 eexists. split; [reflexivity|]. cbn [db].
         repeat split; [repeat constructor | assumption | | auto | discriminate].
         intros [Hin|[]]. discriminate. }
    unfold extend at 1. cbn [db].
    destruct (db s !! uid sub) as [seen0|] eqn:Hrec.
    { do 3 eexists. split; [reflexivity|]. cbn [db].
      repeat split; [repeat constructor | assumption | | auto | discriminate].
      intros [Hin|[]]. discriminate. }
    rewrite bind_run, call_getUserIllusts_run. unfold latest_id.
    destruct (user_illusts w (uid sub)) as [[|first rest']|] eqn:Hlist.
    1, 3: (do 3 eexists; split; [unfold ret, extend; cbn [db trace updatesFound];
                                   rewrite <- app_assoc; reflexivity|];
           repeat split; [repeat constructor | assumption | | auto | discriminate];
           intros [Hin|[Hin|[]]]; [discriminate|]; injection Hin as <-; congruence).
    rewrite database_create_run. cbv zeta. norm_state.
    rewrite Hrec, bool_decide_true, andb_true_r by reflexivity.
    destruct (database_write_ok w (uid sub)).
    2: { do 3 eexists. split; [rewrite <- !app_assoc; reflexivity|].
         repeat split; [repeat constructor | assumption | | auto | discriminate].
         intros [Hin|[Hin|[Hin|[]]]]; try discriminate.
         injection Hin as <-. congruence. }
    do 3 eexists. split; [rewrite <- !app_assoc; reflexivity|].
    repeat split.
    - repeat constructor.
    - rewrite lookup_insert_ne; [assumption|]. intros <-. congruence.
    - intros [Hin|[Hin|[Hin|[]]]]; try discriminate. injection Hin as <-. congruence.
    - intros author.
      destruct (decide (uid sub = author)) as [<-|Hne]; [auto|].
      left. apply lookup_insert_ne. exact Hne.
    - intros _ latestId [= <-] _. apply lookup_insert_eq. }
  rewrite bind_run, Hstep. destruct r1 as [[]|e].
  2: { exists (Exc e), evs1, d1.
       split; [reflexivity|]. split; [exact Hev1|]. split; [exact Hkeep1|].
       intros Hr. discriminate Hr. }
  destruct (IH {| db := d1; trace := trace s ++ evs1; updatesFound := updatesFound s |})
    as (r & evs & d' & Hrest & Hev & Hkeep & Hseed).
  cbn [db trace updatesFound] in *.
  exists r, (evs1 ++ evs), d'. rewrite Hrest, app_assoc. split; [reflexivity|].
  split; [apply Forall_app; auto|]. split.
  - intros author seen Hseen. destruct (Hkeep1 author seen Hseen) as [Hd1 Hno1].
    destruct (Hkeep author seen Hd1) as [Hd' Hno]. split; [exact Hd'|].
    intros Hin. apply in_app_or in Hin. tauto.
  - intros Hr sub0 latestId [<- | Hin] Hlatest Hnone.
    + pose proof (Hseed1 eq_refl latestId Hlatest Hnone) as Hd1.
      exact (proj1 (Hkeep _ _ Hd1)).
    + destruct (Hframe1 (uid sub0)) as [Hsame | [_ Heq]].
      * apply (Hseed Hr sub0 latestId Hin Hlatest). rewrite Hsame. exact Hnone.
      * rewrite Heq in Hlatest, Hnone.
        pose proof (Hseed1 eq_refl latestId Hlatest Hnone) as Hd1.
        rewrite Heq. exact (proj1 (Hkeep _ _ Hd1)).
Qed.

(** X18.  The [ready] pass only reads records, fetches listings and creates
    records: it sends nothing, fetches no artwork and downloads nothing.
    An author who has a record keeps it, and their listing is not even
    fetched. *)
Theorem ready_only_seeds config w s :
  Forall (fun ev => match ev with
                    | DbGet _ | CallGetUserIllusts _ | DbCreate _ _ _ => True
                    | _ => False
                    end) (events_of (ready config w) s)
  /\ forall author seen,
       db s !! author = Some seen ->
       db_after (ready config w) s !! author = Some seen
       /\ ~ In (CallGetUserIllusts author) (events_of (ready config w) s).
Proof.
  destruct (ready_loop config w s) as (r & evs & d' & Hrun & Hev & Hkeep & _).
  unfold events_of, db_after. rewrite Hrun. cbn [snd db trace].
  rewrite drop_app_length. auto.
Qed.

(** X19.  The [ready] pass followed by a timer cycle: an author without a
    record whose listing has a latest id gets the record of that id when
    the pass runs to its end, and the cycle that follows sends nothing for
    that author and writes nothing, so adding an author does not push the
    back catalogue. *)
Theorem seeded_author_is_not_pushed config w s sub latestId :
  fst (ready config w s) = Val tt ->
  In sub (subscriptions config) ->
  latest_id w (uid sub) = Some latestId ->
  db s !! uid sub = None ->
  let seeded := snd (ready config w s) in
  let cycle := checkAndPushUpdates config w false in
  db seeded !! uid sub = Some latestId
  /\ List.filter (delivery_for (uid sub)) (events_of cycle seeded) = []
  /\ List.filter (write_for (uid sub)) (events_of cycle seeded) = [].
Proof.
  intros Hdone Hin Hlatest Hnone seeded cycle. subst cycle.
  assert (db seeded !! uid sub = Some latestId) as Hseen.
  { subst seeded.
    destruct (ready_loop config w s) as (r & evs & d' & Hrun & _ & _ & Hseed).
    rewrite Hrun in Hdone |- *. cbn [fst snd db] in *.
    exact (Hseed Hdone sub latestId Hin Hlatest Hnone). }
  split; [exact Hseen|].
  destruct (check_run config w false seeded) as [-> _].
  destruct (enableSubscription config && bool_decide (is_Some (find_bot config w)));
    [|auto].
  pose proof (iterations_seen config w false (subscriptions config) (db seeded) (uid sub)
                latestId Hlatest Hseen) as H.
  destruct (iterations config w false (subscriptions config) (db seeded)) as [[evs d] n].
  cbn [fst]. destruct H as (Hw & _ & Hdel). auto.
Qed.

Lemma seeded_author_is_not_pushed_witness :
  let config := Examples.tracker_config ActSend in
  let w := Examples.tracker_world Examples.art100 [Examples.online_bot] in
  let seeded := snd (ready config w blank) in
  let cycle := checkAndPushUpdates config w false in
  db seeded !! "7" = Some "100"
  /\ List.filter (delivery_for "7") (events_of cycle seeded) = []
  /\ List.filter (write_for "7") (events_of cycle seeded) = [].
Proof.
  intros config w.
  apply (seeded_author_is_not_pushed config w blank Examples.sub7 "100").
  - reflexivity.
  - left. reflexivity.
  - reflexivity.
  - reflexivity.
Defined.

(* ===================================================================== *)
(** ** Links, commands and the middleware                                *)
(* ===================================================================== *)

Lemma take_digits_all_digits s : all_digits (take_digits s) = true.
Proof.
  induction s as [|c s IH]; simpl; [reflexivity|].
  destruct (is_digit c) eqn:Hc; simpl; [rewrite Hc; exact IH | reflexivity].
Qed.

Lemma link_at_numeric s id : link_at s = Some id -> is_numeric id = true.
Proof.
  unfold link_at. destruct (strip_prefix "pixiv.net/" s) as [rest|]; [|discriminate].
  destruct (match strip_prefix "artworks/" rest with
            | Some after => Some after
            | None => strip_prefix "i/" rest
            end) as [after|]; [|discriminate].
  cbv zeta. destruct (String.eqb (take_digits after) "") eqn:Hempty; [discriminate|].
  intros [= <-]. unfold is_numeric. rewrite Hempty, take_digits_all_digits. reflexivity.
Qed.

Lemma find_link_eq content :
  find_link content =
  match link_at content with
  | Some id => Some id
  | None =>
    match content with
    | EmptyString => None
    | String _ rest => find_link rest
    end
  end.
Proof. destruct content; reflexivity. Qed.

Lemma find_link_numeric content id :
  find_link content = Some id -> is_numeric id = true.
Proof.
  induction content as [|c rest IH]; rewrite find_link_eq.
  - destruct (link_at "") eqn:H; [|discriminate].
    intros [= <-]. exact (link_at_numeric _ _ H).
  - destruct (link_at (String c rest)) eqn:H; [|exact IH].
    intros [= <-]. exact (link_at_numeric _ _ H).
Qed.

Lemma take_digits_app d tail :
  all_digits d = true ->
  match tail with
  | String c _ => is_digit c = false
  | EmptyString => True
  end ->
  take_digits (d +:+ tail) = d.
Proof.
  intros Hd Htail. induction d as [|c d IH]; simpl.
  - destruct tail as [|c tail]; [reflexivity|]. simpl. rewrite Htail. reflexivity.
  - simpl in Hd. apply andb_prop in Hd as [Hc Hd]. rewrite Hc, (IH Hd). reflexivity.
Qed.

Lemma strip_prefix_cons p pre c s :
  strip_prefix (String p pre) (String c s)
  = if Ascii.eqb p c then strip_prefix pre s else None.
Proof. reflexivity. Qed.

(** The letter p stands only at the start of the pattern, so a text that
    goes on with a p adds no match to the text before it. *)
Lemma strip_prefix_before_p pre b rest :
  Forall (fun c => c <> "p"%char) (list_ascii_of_string pre) ->
  strip_prefix pre (b +:+ String "p" rest)
  = option_map (fun r => r +:+ String "p" rest) (strip_prefix pre b).
Proof.
  revert b. induction pre as [|q pre IH]; intros b Hp.
  - destruct b; reflexivity.
  - simpl in Hp. inversion Hp as [|? ? Hq Hpre]; subst. destruct b as [|c b].
    + change ("" +:+ String "p" rest) with (String "p" rest).
      rewrite strip_prefix_cons.
      destruct (Ascii.eqb q "p") eqn:E; [|reflexivity].
      apply Ascii.eqb_eq in E. contradiction.
    + change (String c b +:+ String "p" rest) with (String c (b +:+ String "p" rest)).
      rewrite !strip_prefix_cons.
      destruct (Ascii.eqb q c); [apply IH; assumption | reflexivity].
Qed.

Lemma take_digits_before_p a rest :
  take_digits (a +:+ String "p" rest) = take_digits a.
Proof.
  induction a as [|c a IH].
  - reflexivity.
  - change (String c a +:+ String "p" rest) with (String c (a +:+ String "p" rest)).
    cbn [take_digits]. rewrite IH. reflexivity.
Qed.

Lemma link_at_before_p c b rest :
  link_at (String c b +:+ String "p" rest) = link_at (String c b).
Proof.
  unfold link_at.
  change (String c b +:+ String "p" rest) with (String c (b +:+ String "p" rest)).
  rewrite !(strip_prefix_cons "p" "ixiv.net/").
  destruct (Ascii.eqb "p" c); [|reflexivity].
  rewrite strip_prefix_before_p
    by (simpl; repeat (constructor; [discriminate|]); constructor).
  destruct (strip_prefix "ixiv.net/" b) as [r|]; [|reflexivity].
  cbn [option_map].
  rewrite !strip_prefix_before_p
    by (simpl; repeat (constructor; [discriminate|]); constructor).
  destruct (strip_prefix "artworks/" r) as [after|]; cbn [option_map].
  { rewrite take_digits_before_p. reflexivity. }
  destruct (strip_prefix "i/" r) as [after|]; cbn [option_map]; [|reflexivity].
  rewrite take_digits_before_p. reflexivity.
Qed.

(** X20.  The leftmost link of a message is the one read, and its id is
    read in full: when the text before a link holds no link, the match
    gives the whole run of digits of this link, for both forms of the
    path. *)
Theorem artwork_link_is_found lead kind d tail :
  find_link lead = None ->
  kind = "artworks" \/ kind = "i" ->
  is_numeric d = true ->
  match tail with
  | String c _ => is_digit c = false
  | EmptyString => True
  end ->
  find_link (lead +:+ "pixiv.net/" +:+ kind +:+ "/" +:+ d +:+ tail) = Some d.
Proof.
  intros Hlead Hkind Hd Htail.
  unfold is_numeric in Hd. apply andb_prop in Hd as [Hne Hd].
  apply negb_true_iff in Hne.
  assert (link_at ("pixiv.net/" +:+ kind +:+ "/" +:+ d +:+ tail) = Some d) as Hat.
  { destruct Hkind as [-> | ->]; unfold link_at; simpl;
      change ("" +:+ d +:+ tail) with (d +:+ tail);
      rewrite (take_digits_app d tail Hd Htail), Hne; reflexivity. }
  change ("pixiv.net/" +:+ kind +:+ "/" +:+ d +:+ tail)
    with (String "p" ("ixiv.net/" +:+ kind +:+ "/" +:+ d +:+ tail)) in *.
  set (rest := "ixiv.net/" +:+ kind +:+ "/" +:+ d +:+ tail) in *.
  induction lead as [|c lead IH]; rewrite find_link_eq.
  - change ("" +:+ String "p" rest) with (String "p" rest). rewrite Hat. reflexivity.
  - rewrite find_link_eq in Hlead.
    destruct (link_at (String c lead)) eqn:Hhere; [discriminate|].
    rewrite link_at_before_p, Hhere.
    change (String c lead +:+ String "p" rest) with (String c (lead +:+ String "p" rest)).
    apply IH. exact Hlead.
Qed.

Lemma artwork_link_is_found_witness :
  find_link ("see https://www." +:+ "pixiv.net/" +:+ "artworks" +:+ "/" +:+ "12345"
             +:+ "?lang=en") = Some "12345".
Proof.
  apply (artwork_link_is_found "see https://www." "artworks" "12345" "?lang=en").
  - reflexivity.
  - left. reflexivity.
  - reflexivity.
  - reflexivity.
Defined.

Lemma lift_plug_run {A} (m : Plug A) c :
  lift_plug m c
  = (fst (m (plugin c)), {| plugin := snd (m (plugin c)); sent := sent c |}).
Proof. unfold lift_plug. destruct (m (plugin c)). reflexivity. Qed.

Lemma chat_events_extend {A} (m : Cmd A) c r evs l :
  m c = (r, {| plugin := extend (plugin c) evs; sent := l |}) ->
  chat_events m c = evs.
Proof.
  intros H. unfold chat_events. rewrite H. cbn [snd plugin extend trace].
  apply drop_app_length.
Qed.

Lemma chat_events_same {A} (m : Cmd A) c r l :
  m c = (r, {| plugin := plugin c; sent := l |}) -> chat_events m c = [].
Proof.
  intros H. unfold chat_events. rewrite H. cbn [snd plugin]. apply drop_all.
Qed.

Lemma session_reply_run w m c :
  session_reply w m c
  = (if session_send_ok w then Val tt else Exc DeliveryError,
     {| plugin := plugin c; sent := sent c ++ [m] |}).
Proof. reflexivity. Qed.

(** The result of a request that is not a subscription push is never
    null, also when the [try] block threw. *)
Lemma interactive_outcome_is_not_null config w se id source :
  falsy_output match render_outcome config w (Some se) id source false with
               | Val o => o
               | Exc e => OUnknownError (messageId se) e
               end = false.
Proof.
  unfold render_outcome, quoted.
  destruct (artwork_detail w id) as [illust|]; [|reflexivity].
  destruct (stopped_by_policy config illust false).
  { destruct (r18Action config); reflexivity. }
  destruct (omap (download_image w) (imageUrls illust)) as [|b bs] eqn:Hb; [reflexivity|].
  destruct (compose config w (Some se) id source false illust (b :: bs)) as [o|e] eqn:Hc;
    [|reflexivity].
  destruct (compose_shape _ _ _ _ _ _ _ _ _ _ Hc) as (text & rest & _ & [-> | ->]);
    reflexivity.
Qed.

(** What [pid] and the middleware do once they have an id. *)
Lemma reply_run config w se id source c :
  (result <- lift_plug (handlePixivRequest config w (Some se) id source false) ;;
   send_result w result ;;;
   ret AUndefined) c
  = if session_send_ok w then
      (Val AUndefined,
       {| plugin := extend (plugin c)
                      ([SessionSend id] ++ render_calls config w id false ++ [DeleteMessage]);
          sent := sent c
                  ++ [MContent (payload match render_outcome config w (Some se) id source false with
                                        | Val o => o
                                        | Exc e => OUnknownError (messageId se) e
                                        end)] |})
    else (Exc DeliveryError, {| plugin := extend (plugin c) [SessionSend id]; sent := sent c |}).
Proof.
  rewrite bind_run, lift_plug_run, handle_full. cbv zeta iota.
  destruct (session_send_ok w) eqn:Hsend; cbn [fst snd]; [|reflexivity].
  rewrite bind_run. unfold send_result.
  rewrite interactive_outcome_is_not_null.
  unfold session_reply. rewrite Hsend. reflexivity.
Qed.



(** X22.  The middleware, in a session whose sends go out, never throws.
    It passes a message on untouched when the message has no artwork link
    or starts with the prefix followed by pid, so that a [pid] command is
    answered once.  Otherwise it makes the request for the id of the
    leftmost link, which is a run of digits as the [pid] command demands
    of its argument, and nothing else, and sends exactly one message: the
    result of that request. *)
Theorem middleware_replies_once config w prefix se content c :
  session_send_ok w = true ->
  exists answer c',
    middleware config w prefix se content c = (Val answer, c')
    /\ match answer with
       | ANext =>
         c' = c
         /\ (find_link content = None
             \/ is_Some (strip_prefix (prefix +:+ "pid") content))
       | AUndefined =>
         exists id result,
           find_link content = Some id /\ is_numeric id = true
           /\ strip_prefix (prefix +:+ "pid") content = None
           /\ handlePixivRequest config w (Some se) id Middleware false (plugin c)
              = (Val result, plugin c')
           /\ sent c' = sent c ++ [MContent (payload result)]
       | _ => False
       end.
Proof.
  intros Hsend. unfold middleware. destruct (find_link content) as [id|] eqn:Hlink.
  2: { do 2 eexists. split; [reflexivity|]. split; [reflexivity | left; reflexivity]. }
  destruct (strip_prefix (prefix +:+ "pid") content) as [rest|] eqn:Hpid.
  { do 2 eexists. split; [reflexivity|]. split; [reflexivity | right; eauto]. }
  pose proof (reply_run config w se id Middleware c) as Hrun. rewrite Hsend in Hrun.
  pose proof (handle_full config w (Some se) id Middleware false (plugin c)) as Hrequest.
  cbv zeta iota in Hrequest. rewrite Hsend in Hrequest.
  do 2 eexists. split; [exact Hrun|]. do 2 eexists.
  split; [reflexivity|]. split; [exact (find_link_numeric _ _ Hlink)|].
  split; [reflexivity|]. split; [exact Hrequest | reflexivity].
Qed.

Lemma middleware_replies_once_witness :
  let config := Examples.config_with ActSend 3 10 true [] in
  let w := Examples.tracker_world Examples.art100 [] in
  let content := "https://www.pixiv.net/artworks/100" in
  exists answer c',
    middleware config w "/" Examples.session content Examples.quiet = (Val answer, c')
    /\ match answer with
       | ANext =>
         c' = Examples.quiet
         /\ (find_link content = None
             \/ is_Some (strip_prefix ("/" +:+ "pid") content))
       | AUndefined =>
         exists id result,
           find_link content = Some id /\ is_numeric id = true
           /\ strip_prefix ("/" +:+ "pid") content = None
           /\ handlePixivRequest config w (Some Examples.session) id Middleware false
                (plugin Examples.quiet)
              = (Val result, plugin c')
           /\ sent c' = sent Examples.quiet ++ [MContent (payload result)]
       | _ => False
       end.
Proof.
  intros config w content.
  exact (middleware_replies_once config w "/" Examples.session content Examples.quiet
           eq_refl).
Defined.


Lemma render_calls_only_fetch config w id isSubscription :
  Forall (fun ev => match ev with
                    | CallGetUserIllusts _ | CallGetArtworkDetail _
                    | CallDownloadImage _ _ => True
                    | _ => False
                    end) (render_calls config w id isSubscription).
Proof.
  unfold render_calls. constructor; [exact I|].
  destruct (artwork_detail w id) as [illust|]; [|constructor].
  destruct (stopped_by_policy config illust isSubscription); [constructor|].
  induction (imageUrls illust) as [|url urls IH]; cbn [map]; constructor; [exact I | exact IH].
Qed.

(** X24.  The [pixivtest] command is a dry run: on every path it leaves the
    table of last artworks as it is, and the only calls it makes are the
    listing of the author, the detail of the latest artwork and the
    downloads of its images; it reads no record, writes none, sends
    nothing through the push bot and no status message. *)
Theorem pixivtest_is_a_dry_run config w se author c :
  db (plugin (snd (pixivtest_command config w se author c))) = db (plugin c)
  /\ Forall (fun ev => match ev with
                       | CallGetUserIllusts _ | CallGetArtworkDetail _
                       | CallDownloadImage _ _ => True
                       | _ => False
                       end) (chat_events (pixivtest_command config w se author) c).
Proof.
  unfold chat_events. destruct c as [st msgs]. cbn [plugin sent].
  assert (forall (run : Res JsError Answer * Chat) r evs l,
             run = (r, {| plugin := extend st evs; sent := l |}) ->
             Forall (fun ev => match ev with
                               | CallGetUserIllusts _ | CallGetArtworkDetail _
                               | CallDownloadImage _ _ => True
                               | _ => False
                               end) evs ->
             db (plugin (snd run)) = db st
             /\ Forall (fun ev => match ev with
                                  | CallGetUserIllusts _ | CallGetArtworkDetail _
                                  | CallDownloadImage _ _ => True
                                  | _ => False
                                  end)
                  (drop (length (trace st)) (trace (plugin (snd run))))) as Hshape.
  { intros run r evs l -> Hevs. cbn [snd plugin extend db trace].
    rewrite drop_app_length. split; [reflexivity | exact Hevs]. }
  assert (st = extend st []) as Hsame.
  { unfold extend. rewrite app_nil_r. destruct st. reflexivity. }
  unfold pixivtest_command.
  destruct (enableSubscription config); cbn [negb].
  2: { eapply Hshape; [unfold ret; rewrite <- Hsame; reflexivity | constructor]. }
  destruct author as [author|].
  2: { eapply Hshape; [unfold ret; rewrite <- Hsame; reflexivity | constructor]. }
  destruct (is_numeric author); cbn [negb].
  2: { eapply Hshape; [unfold ret; rewrite <- Hsame; reflexivity | constructor]. }
  rewrite !bind_run, !session_reply_run. cbn [plugin sent].
  destruct (session_send_ok w) eqn:Hsend.
  2: { eapply Hshape; [rewrite <- Hsame; reflexivity | constructor]. }
  rewrite !bind_run, !lift_plug_run, !call_getUserIllusts_run. cbn [fst snd plugin sent].
  destruct (user_illusts w author) as [[|latestIllust others]|].
  1, 3: (eapply Hshape; [unfold ret; reflexivity | repeat constructor]).
  cbv zeta. rewrite !bind_run, !session_reply_run, Hsend. cbn [plugin sent].
  rewrite !bind_run, !lift_plug_run, !handle_full. cbv zeta iota. cbn [fst snd plugin sent].
  rewrite !extend_extend, !bind_run.
  destruct (falsy_output _); rewrite !session_reply_run, Hsend; cbn [plugin sent];
    (eapply Hshape; [unfold ret; reflexivity|]);
    (constructor; [exact I | apply render_calls_only_fetch]).
Qed.

(* ===================================================================== *)
(** ** The author page                                                   *)
(* ===================================================================== *)

Lemma screenshot_run ucfg uw author s :
  exists r evs,
    takeUserPageScreenshot ucfg uw author s = (r, s ++ evs)
    /\ Forall (fun ev => browser_call ev = true) evs
    /\ (page_ok uw = true ->
        r = (if close_ok uw
             then Val (if cookie_passes ucfg uw && goto_ok uw
                       then screenshot_result uw else None)
             else Exc (browser_error uw))
        /\ exists mid,
            evs = PageOpen :: mid ++ [PageClose]
            /\ ~ In PageClose mid /\ ~ In PageOpen mid).
Proof.
  unfold takeUserPageScreenshot, cookie_passes, step, log, finally_throwing, try_catch,
    bind, ret, throw.
  destruct (page_ok uw).
  2: { exists (Exc (browser_error uw)), [PageOpen].
       split; [reflexivity|]. split; [repeat constructor | discriminate]. }
  destruct (phpsessid ucfg) as [value|]; [destruct (String.eqb value "")|];
    destruct (setCookie_ok uw), (goto_ok uw), (screenshot_result uw) as [image|],
      (close_ok uw);
    cbn; rewrite <- ?app_assoc; cbn [app];
    match goal with
    | |- exists r evs, (?r0, s ++ ?l) = _ /\ _ => exists r0, l
    end;
    (split; [reflexivity|]); (split; [repeat constructor|]); intros _;
    (split; [reflexivity|]);
    match goal with
    | |- exists mid, PageOpen :: ?l = _ /\ _ => exists (removelast l)
    end;
    cbn; (split; [reflexivity|]);
    split; intros H; repeat (destruct H as [H|H]; [discriminate|]); exact H.
Qed.

(** X25.  Once the browser has opened a page, [takeUserPageScreenshot]
    closes it exactly once, as its last call, whatever failed in between.
    Failures in between give null instead of an image; an error of the
    closing call itself is thrown to the caller. *)
Theorem screenshot_closes_the_page ucfg uw author s :
  page_ok uw = true ->
  exists mid,
    takeUserPageScreenshot ucfg uw author s
    = (if close_ok uw
       then Val (if cookie_passes ucfg uw && goto_ok uw
                 then screenshot_result uw else None)
       else Exc (browser_error uw),
       s ++ PageOpen :: mid ++ [PageClose])
    /\ ~ In PageClose mid /\ ~ In PageOpen mid.
Proof.
  intros Hpage.
  destruct (screenshot_run ucfg uw author s) as (r & evs & Hrun & _ & Hopened).
  destruct (Hopened Hpage) as (-> & mid & -> & Hclose & Hopen).
  exists mid. auto.
Qed.

Lemma screenshot_closes_the_page_witness :
  exists mid,
    takeUserPageScreenshot Examples.uid_config Examples.slow_page "7" []
    = (Val None, [] ++ PageOpen :: mid ++ [PageClose])
    /\ ~ In PageClose mid /\ ~ In PageOpen mid.
Proof.
  exact (screenshot_closes_the_page Examples.uid_config Examples.slow_page "7" [] eq_refl).
Defined.




Lemma has_gt_false_no_tag s : has_gt s = false -> has_tag s = false.
Proof.
  induction s as [|c s IH]; [reflexivity|]. cbn [has_gt has_tag]. intros H.
  apply orb_false_elim in H as [_ H]. rewrite H, (IH H), andb_false_r. reflexivity.
Qed.

Lemma strip_tags_clean s inside : has_tag (strip_tags inside s) = false.
Proof.
  revert inside. induction s as [|c s IH]; intros inside; [destruct inside; reflexivity|].
  cbn [strip_tags]. destruct inside.
  - destruct (Ascii.eqb c ">"); apply IH.
  - destruct (Ascii.eqb c "<") eqn:Hc.
    + destruct (has_gt s) eqn:Hgt; [apply IH|].
      cbn [has_tag]. rewrite Hgt, andb_false_r. apply has_gt_false_no_tag. exact Hgt.
    + cbn [has_tag]. rewrite Hc. apply IH.
Qed.

Lemma strip_tags_without_tag s : has_tag s = false -> strip_tags false s = s.
Proof.
  induction s as [|c s IH]; [reflexivity|]. cbn [strip_tags has_tag]. intros H.
  apply orb_false_elim in H as [Hhere Hrest].
  destruct (Ascii.eqb c "<").
  - cbn [andb] in Hhere. rewrite Hhere. reflexivity.
  - rewrite (IH Hrest). reflexivity.
Qed.

(** X27.  The biography shown for an author holds no markup: after the
    cleaning no [<] is followed anywhere by a [>], and cleaning a cleaned
    text changes nothing. *)
Theorem cleanBio_has_no_tag profile :
  has_tag (cleanBio profile) = false
  /\ strip_tags false (cleanBio profile) = cleanBio profile.
Proof.
  unfold cleanBio.
  split; [apply strip_tags_clean | apply strip_tags_without_tag, strip_tags_clean].
Qed.
